(** * Magnetic solitons on a 1D spin chain: the LLG engine and the soliton
      kinematics, embedded from [scripts/core/llg_engine.py],
      [scripts/analysis/calculate_mobility.py] and
      [scripts/analysis/extract_velocity.py].

    Numbers.  The Python code computes with IEEE doubles.  The engine is
    embedded over the real numbers [R] (exact arithmetic: no rounding, no
    overflow, no nan); the analysis scripts only compare sampled values
    and average integer indices, and are embedded over the rationals [Q],
    where they stay executable.  The renormalization of [llg_rhs] is
    embedded a second time on binary64 floating-point numbers (module
    [Doubles]), where overflow, underflow and rounding show.

    Arrays.  A numpy array of shape (N, 3) is a list of N records [V3]; a
    flat array of 3N doubles is a [list R].  Python exceptions, and the
    one place where numpy would leave the finite numbers (a division by a
    zero norm), are outcomes of the [result] type. *)

From Stdlib Require Import Reals Lra Lia List ZArith QArith Bool Arith.
From Stdlib Require String.
From Stdlib Require Floats.
Import ListNotations.

Set Warnings "-abstract-large-number".

(** ** Outcomes of a Python call *)

Inductive exn : Type :=
| ValueError        (* numpy: shapes do not fit, reduction of an empty array *)
| IndexError        (* index out of bounds *)
| TypeError         (* [**None], ... *)
| RuntimeError      (* the least-squares fitter did not converge *)
| FileNotFoundError
| ZeroDivide.       (* x / 0: numpy warns and goes on with nan or inf, which
                       the exact-arithmetic model does not follow *)

Inductive result (A : Type) : Type :=
| Ok (a : A)
| Raise (e : exn).
Arguments Ok {A} a.
Arguments Raise {A} e.

Definition bind {A B : Type} (m : result A) (k : A -> result B) : result B :=
  match m with
  | Ok a => k a
  | Raise e => Raise e
  end.

Notation "x <- m ;; k" := (bind m (fun x => k))
  (at level 61, m at next level, right associativity).

Fixpoint map2 {A B C : Type} (f : A -> B -> C) (l : list A) (l' : list B) : list C :=
  match l, l' with
  | a :: t, b :: t' => f a b :: map2 f t t'
  | _, _ => []
  end.

Fixpoint mapM2 {A B C : Type} (f : A -> B -> result C) (l : list A) (l' : list B)
  : result (list C) :=
  match l, l' with
  | a :: t, b :: t' => c <- f a b ;; r <- mapM2 f t t' ;; Ok (c :: r)
  | _, _ => Ok []
  end.

(** [np.roll(a, shift, axis=0)], as numpy computes it: the shift is reduced
    modulo the length, the last [shift] rows come first.  An empty array is
    returned as it is. *)
Definition roll {A : Type} (shift : Z) (a : list A) : list A :=
  let n := length a in
  match n with
  | O => a
  | _ => let s := Z.to_nat (shift mod Z.of_nat n) in
         skipn (n - s) a ++ firstn (n - s) a
  end.

Module LlgEngine.

Local Open Scope R_scope.

(** One row of an (N, 3) array. *)
Record V3 : Type := mkV3 { vx : R; vy : R; vz : R }.

Definition chain : Type := list V3.

Definition zero3 : V3 := mkV3 0 0 0.

Definition vadd (a b : V3) : V3 := mkV3 (vx a + vx b) (vy a + vy b) (vz a + vz b).
Definition vsub (a b : V3) : V3 := mkV3 (vx a - vx b) (vy a - vy b) (vz a - vz b).
Definition vscale (c : R) (a : V3) : V3 := mkV3 (c * vx a) (c * vy a) (c * vz a).
Definition vadd_scalar (a : V3) (c : R) : V3 := mkV3 (vx a + c) (vy a + c) (vz a + c).

(** [np.cross] on one pair of rows. *)
Definition cross (a b : V3) : V3 :=
  mkV3 (vy a * vz b - vz a * vy b)
       (vz a * vx b - vx a * vz b)
       (vx a * vy b - vy a * vx b).

Definition dot (a b : V3) : R := vx a * vx b + vy a * vy b + vz a * vz b.

(** [np.linalg.norm] of one row. *)
Definition norm (a : V3) : R := sqrt (vx a * vx a + vy a * vy a + vz a * vz a).

(** numpy broadcasting of a binary operation on arrays of shapes (n, 3) and
    (m, 3): rows are paired when n = m, a single row is repeated, any other
    pair of shapes raises. *)
Definition broadcast2 (f : V3 -> V3 -> V3) (a b : chain) : result chain :=
  if Nat.eqb (length a) (length b) then Ok (map2 f a b)
  else match a, b with
       | [x], _ => Ok (map (f x) b)
       | _, [y] => Ok (map (fun x => f x y) a)
       | _, _ => Raise ValueError
       end.

(** The external field handed to [calculate_B_eff]: "un vector (N, 3) o un
    escalar". *)
Inductive field : Type :=
| Scalar (c : R)
| Sites (h : chain).

Definition add_external (b : chain) (h_external : field) : result chain :=
  match h_external with
  | Scalar c => Ok (map (fun x => vadd_scalar x c) b)
  | Sites h => broadcast2 vadd b h
  end.

Definition calculate_B_eff (S : chain) (J D Da : R) (h_external : field) : result chain :=
  let s_next := roll (-1) S in
  let s_prev := roll 1 S in
  let b_heisenberg := map (vscale J) (map2 vadd s_prev s_next) in
  let diff := map2 vsub s_next s_prev in
  let b_dmi := map (fun d => mkV3 (- D * vy d) (D * vx d) 0) diff in
  let b_anisotropy := map (fun s => mkV3 0 0 (-2 * Da * vz s)) S in
  add_external (map2 vadd (map2 vadd b_heisenberg b_dmi) b_anisotropy) h_external.

(** Row-wise division [S /= norms] (norms of shape (N, 1)). *)
Definition vdiv (v : V3) (n : R) : result V3 :=
  if Req_dec_T n 0 then Raise ZeroDivide
  else Ok (mkV3 (vx v / n) (vy v / n) (vz v / n)).

Definition divide_rows (S : chain) (norms : list R) : result chain :=
  mapM2 vdiv S norms.

(** [a.flatten()] and [a.reshape((N, 3))] between shapes (N, 3) and (3N,). *)
Definition flatten (S : chain) : list R :=
  flat_map (fun v => [vx v; vy v; vz v]) S.

Fixpoint rows3 (l : list R) : chain :=
  match l with
  | x :: y :: z :: r => mkV3 x y z :: rows3 r
  | _ => []
  end.

Definition reshape (a : list R) (N : nat) : result chain :=
  if Nat.eqb (length a) (3 * N) then Ok (rows3 a) else Raise ValueError.

(** [np.max] of a flat array: an empty array has no maximum. *)
Definition np_max (l : list R) : result R :=
  match l with
  | [] => Raise ValueError
  | x :: t => Ok (fold_left Rmax t x)
  end.

(** [np.max(np.abs(S - S_old))] *)
Definition max_abs_diff (S S_old : chain) : result R :=
  np_max (map Rabs (flatten (map2 vsub S S_old))).

(** *** find_ground_state *)

Definition default_max_steps : nat := 20000.
Definition default_tolerance : R := / 100000000.

Section Relaxation.

Variables (J D Da : R) (tolerance dt_relax : R).

(** The body of the loop up to the convergence test:
    [S += dt_relax * B_eff; S /= norm(S)]. *)
Definition relax_step (S : chain) : result chain :=
  B_eff <- calculate_B_eff S J D Da (Scalar 0) ;;
  let S1 := map2 vadd S (map (vscale dt_relax) B_eff) in
  divide_rows S1 (map norm S1).

(** [for step in range(max_steps)], entered at [step] with [remaining]
    iterations to go. *)
Fixpoint relax_loop (remaining step : nat) (S : chain) : result chain :=
  match remaining with
  | O => Ok S
  | Datatypes.S remaining' =>
      let S_old := S in
      S <- relax_step S ;;
      if Nat.eqb (step mod 500) 0 then
        change <- max_abs_diff S S_old ;;
        if Rlt_dec change tolerance then Ok S
        else relax_loop remaining' (Datatypes.S step) S
      else relax_loop remaining' (Datatypes.S step) S
  end.

(** The convergence test as the specification words it: at a checkpoint
    the change is measured against the configuration kept from the
    previous checkpoint ([S_ref], at first the initial configuration),
    not against the configuration one iteration earlier. *)
Fixpoint relax_loop_since_checkpoint (remaining step : nat) (S_ref S : chain)
  : result chain :=
  match remaining with
  | O => Ok S
  | Datatypes.S remaining' =>
      S <- relax_step S ;;
      if Nat.eqb (step mod 500) 0 then
        change <- max_abs_diff S S_ref ;;
        if Rlt_dec change tolerance then Ok S
        else relax_loop_since_checkpoint remaining' (Datatypes.S step) S S
      else relax_loop_since_checkpoint remaining' (Datatypes.S step) S_ref S
  end.

(** The configuration after [k] iterations of the loop body, when no
    convergence test stops the loop. *)
Fixpoint iterate (k : nat) (S : chain) : result chain :=
  match k with
  | O => Ok S
  | Datatypes.S k' => S' <- relax_step S ;; iterate k' S'
  end.

(** Iteration [k] (counted from 0) changes some component by [tolerance] or
    more: the test [change < tolerance] fails on the configurations just
    before and just after that iteration. *)
Definition large_step (k : nat) (S : chain) : Prop :=
  exists S_old S_new change,
    iterate k S = Ok S_old /\ relax_step S_old = Ok S_new /\
    max_abs_diff S_new S_old = Ok change /\ ~ change < tolerance.

End Relaxation.

(** [find_ground_state(N, J, D, Da, max_steps, tolerance, dt_relax)]; the
    argument [draw] is the value of [np.random.rand(N, 3)], of N rows. *)
Definition find_ground_state (draw : chain) (J D Da : R) (max_steps : nat)
    (tolerance dt_relax : R) : result chain :=
  let S := map (fun v => vadd_scalar v (- (5 / 10))) draw in
  S <- divide_rows S (map norm S) ;;
  relax_loop J D Da tolerance dt_relax max_steps 0 S.

(** The same with the convergence test of the specification's wording. *)
Definition find_ground_state_since_checkpoint (draw : chain) (J D Da : R)
    (max_steps : nat) (tolerance dt_relax : R) : result chain :=
  let S := map (fun v => vadd_scalar v (- (5 / 10))) draw in
  S <- divide_rows S (map norm S) ;;
  relax_loop_since_checkpoint J D Da tolerance dt_relax max_steps 0 S S.

(** *** llg_rhs *)

(** [norms[norms == 0] = 1] *)
Definition fix_zero_norms (norms : list R) : list R :=
  map (fun n => if Req_dec_T n 0 then 1 else n) norms.

(** The working configuration of [llg_rhs] after [S /= norms]. *)
Definition renormalize (S : chain) : result chain :=
  divide_rows S (fix_zero_norms (map norm S)).

Section Rhs.

(** The keyword bundle [h_args] of the external-field function. *)
Variable HArgs : Type.

(** [h_ext] of [llg_rhs]: [h_external_func(t, N, **h_args)], or 0.0. *)
Definition external_field (h_external_func : option (R -> nat -> HArgs -> result field))
    (h_args : option HArgs) (t : R) (N : nat) : result field :=
  match h_external_func with
  | Some f =>
      match h_args with
      | Some kw => f t N kw
      | None => Raise TypeError
      end
  | None => Ok (Scalar 0)
  end.

(** [S = S_flat.reshape((N, 3))] is a view: it shares the buffer of the
    caller's array, and the in-place [S /= norms] writes through it.  The
    first component of the result is the content of the caller's array
    [S_flat] when the call ends, the second the value returned (or the
    exception raised). *)
Definition llg_rhs (t : R) (S_flat : list R) (N : nat) (J D Da alpha gamma : R)
    (h_external_func : option (R -> nat -> HArgs -> result field))
    (h_args : option HArgs) : list R * result (list R) :=
  match reshape S_flat N with
  | Raise e => (S_flat, Raise e)
  | Ok view =>
      match renormalize view with
      | Raise e => (S_flat, Raise e)
      | Ok normalized =>
          let S := normalized in
          (flatten S,
           h_ext <- external_field h_external_func h_args t N ;;
           B_eff <- calculate_B_eff S J D Da h_ext ;;
           sxb <- broadcast2 cross S B_eff ;;
           let precession_term := map (vscale (- gamma)) sxb in
           sxsxb <- broadcast2 cross S sxb ;;
           let damping_term := map (vscale (- alpha)) sxsxb in
           dSdt <- broadcast2 vadd precession_term damping_term ;;
           Ok (flatten dSdt))
      end
  end.

End Rhs.

End LlgEngine.

Module Kinematics.

Local Open Scope Q_scope.

(** A Python float that is either a number or [np.nan], the scripts'
    missing-value marker. *)
Inductive pyfloat : Type :=
| Num (q : Q)
| NaN.

Definition T_START_FIT : Q := 30.
Definition T_END_FIT : Q := 150.

Definition Qlt_bool (a b : Q) : bool := negb (Qle_bool b a).

Definition linear_func (x a b : Q) : Q := a * x + b.

(** The two arrays of a saved run: [S_history] of shape (3N, T), given by
    its rows, and [time_points] of shape (T,). *)
Record npz : Type := mkNpz { S_history : list (list Q); time_points : list Q }.

Definition index {A : Type} (a : list A) (i : nat) : result A :=
  match nth_error a i with
  | Some x => Ok x
  | None => Raise IndexError
  end.

Definition ncols (a : list (list Q)) : nat :=
  match a with
  | [] => O
  | r :: _ => length r
  end.

(** The elements of [a.T] in row-major order. *)
Definition transposed (a : list (list Q)) : list Q :=
  flat_map (fun t => map (fun row => nth t row 0) a) (seq 0 (ncols a)).

Fixpoint chunks (count size : nat) (l : list Q) : list (list Q) :=
  match count with
  | O => []
  | S count' => firstn size l :: chunks count' size (skipn size l)
  end.

(** [S_history_flat.T.reshape(-1, N, 3)[:, :, 2]] with
    [N = S_history_flat.shape[0] // 3]: one row of z components per block
    of 3N consecutive elements. *)
Definition sz_history_of (S_history_flat : list (list Q)) : result (list (list Q)) :=
  let N := (length S_history_flat / 3)%nat in
  let flat := transposed S_history_flat in
  if Nat.eqb N 0 then Raise ValueError
  else if negb (Nat.eqb (length flat mod (3 * N)) 0) then Raise ValueError
  else Ok (map (fun block => map (fun i => nth (3 * i + 2) block 0) (seq 0 N))
               (chunks (length flat / (3 * N)) (3 * N) flat)).

(** [np.where(row < 0.0)[0]], the row starting at site [i]. *)
Fixpoint where_negative (i : nat) (row : list Q) : list nat :=
  match row with
  | [] => []
  | z :: rest =>
      if Qlt_bool z 0 then i :: where_negative (S i) rest
      else where_negative (S i) rest
  end.

(** [np.mean] of an array of indices. *)
Definition np_mean (idx : list nat) : Q :=
  inject_Z (Z.of_nat (list_sum idx)) / inject_Z (Z.of_nat (length idx)).

(** The tracking loop [for t_idx, t in enumerate(time_points)], entered at
    [t_idx]; the result is the pair [(positions, times_with_soliton)]. *)
Fixpoint track (sz_history : list (list Q)) (t_idx : nat) (times : list Q)
  : result (list Q * list Q) :=
  match times with
  | [] => Ok ([], [])
  | t :: rest =>
      row <- index sz_history t_idx ;;
      let core_indices := where_negative 0 row in
      later <- track sz_history (S t_idx) rest ;;
      if Nat.ltb 0 (length core_indices)
      then Ok (np_mean core_indices :: fst later, t :: snd later)
      else Ok later
  end.

(** [(times > T_START_FIT) & (times < T_END_FIT)] *)
Definition fit_mask (times : list Q) : list bool :=
  map (fun t => Qlt_bool T_START_FIT t && Qlt_bool t T_END_FIT) times.

(** [np.sum(mask)] *)
Definition np_sum (mask : list bool) : nat := length (filter (fun b => b) mask).

(** [a[mask]] *)
Fixpoint select {A : Type} (mask : list bool) (a : list A) : list A :=
  match mask, a with
  | b :: mask', x :: a' => if b then x :: select mask' a' else select mask' a'
  | _, _ => []
  end.

Section Analysis.

(** The collaborators: [np.load] and [scipy.optimize.curve_fit], which
    returns the fitted parameters or raises. *)
Variable Filename : Type.
Variable np_load : Filename -> result npz.
Variable curve_fit : (Q -> Q -> Q -> Q) -> list Q -> list Q -> result (pyfloat * pyfloat).

(** The body shared, line for line, by [calculate_velocity] and by the
    loop over files of [extract_velocity.py]: tracking, window, fit. *)
Definition soliton_velocity (data : npz) : result pyfloat :=
  sz_history <- sz_history_of (S_history data) ;;
  tracked <- track sz_history 0 (time_points data) ;;
  let positions := fst tracked in
  let times_with_soliton := snd tracked in
  match times_with_soliton with
  | [] => Ok NaN
  | _ :: _ =>
      let mask := fit_mask times_with_soliton in
      if Nat.ltb (np_sum mask) 2 then Ok NaN
      else
        let t_fit := select mask times_with_soliton in
        let pos_fit := select mask positions in
        match curve_fit linear_func t_fit pos_fit with
        | Ok params => Ok (fst params)
        | Raise RuntimeError => Ok NaN
        | Raise e => Raise e
        end
  end.

(** calculate_mobility.py *)
Definition calculate_velocity (filename : Filename) : result pyfloat :=
  match np_load filename with
  | Ok data => soliton_velocity data
  | Raise FileNotFoundError => Ok NaN
  | Raise e => Raise e
  end.

(** extract_velocity.py: the value appended to [velocities] for one
    loaded file. *)
Definition velocities_entry (data : npz) : result pyfloat :=
  soliton_velocity data.

End Analysis.

(** *** The specification's terms of the tracking and of the fit window *)

(** A saved run of a chain of [N >= 1] sites sampled at [T] times:
    [S_history] has 3N rows of T columns, [time_points] has T entries. *)
Definition well_formed (data : npz) (N T : nat) : Prop :=
  (1 <= N)%nat /\
  length (S_history data) = (3 * N)%nat /\
  Forall (fun row => length row = T) (S_history data) /\
  length (time_points data) = T.

(** The z component of site [i] at sample [t]: row 3i+2, column t. *)
Definition z_component (data : npz) (t i : nat) : Q :=
  nth t (nth (3 * i + 2) (S_history data) []) 0.

(** The core at sample [t]: the sites whose z component is below zero, in
    increasing order. *)
Definition core (data : npz) (N t : nat) : list nat :=
  filter (fun i => Qlt_bool (z_component data t i) 0) (seq 0 N).

Definition has_core (data : npz) (N t : nat) : bool :=
  match core data N t with
  | [] => false
  | _ :: _ => true
  end.

(** The samples with a soliton, in the order of the sampled times. *)
Definition samples_with_soliton (data : npz) (N T : nat) : list nat :=
  filter (has_core data N) (seq 0 T).

(** The tracked positions and their times on a well-formed run. *)
Definition tracked_positions (data : npz) (N T : nat) : list Q :=
  map (fun t => np_mean (core data N t)) (samples_with_soliton data N T).

Definition tracked_times (data : npz) (N T : nat) : list Q :=
  map (fun t => nth t (time_points data) 0) (samples_with_soliton data N T).

(** The window of the code, open at both ends, and the window
    [T_START_FIT, T_END_FIT] of the specification, closed at both ends. *)
Definition in_open_window (t : Q) : bool :=
  Qlt_bool T_START_FIT t && Qlt_bool t T_END_FIT.

Definition in_closed_window (t : Q) : bool :=
  Qle_bool T_START_FIT t && Qle_bool t T_END_FIT.

(** The tracked samples [(time, position)], and those of them the
    specification's window and the code's window keep. *)
Definition tracked_samples (data : npz) (N T : nat) : list (Q * Q) :=
  combine (tracked_times data N T) (tracked_positions data N T).

Definition samples_in_open_window (data : npz) (N T : nat) : list (Q * Q) :=
  filter (fun p => in_open_window (fst p)) (tracked_samples data N T).

Definition samples_in_closed_window (data : npz) (N T : nat) : list (Q * Q) :=
  filter (fun p => in_closed_window (fst p)) (tracked_samples data N T).

(** What the scripts make of the outcome of [curve_fit]. *)
Definition velocity_of_fit (fit : result (pyfloat * pyfloat)) : result pyfloat :=
  match fit with
  | Ok params => Ok (fst params)
  | Raise RuntimeError => Ok NaN
  | Raise e => Raise e
  end.

(** A stand-in for the fitter on concrete runs: the line through the first
    two points, which is the least-squares line when there are two. *)
Definition line_through_first_two (model : Q -> Q -> Q -> Q) (xs ys : list Q)
  : result (pyfloat * pyfloat) :=
  match xs, ys with
  | x0 :: x1 :: _, y0 :: y1 :: _ =>
      let a := (y1 - y0) / (x1 - x0) in
      Ok (Num a, Num (y0 - a * x0))
  | _, _ => Raise TypeError
  end.

(** A chain of one site with reversed magnetization, sampled at the two
    ends of the fit window and twice inside it. *)
Definition boundary_run : npz :=
  mkNpz [[0; 0; 0; 0]; [0; 0; 0; 0]; [-1; -1; -1; -1]] [30; 60; 90; 150].

(** The same chain sampled once, inside the window. *)
Definition single_sample_run : npz :=
  mkNpz [[0]; [0]; [-1]] [60].

(** A chain of two sites sampled at three times inside the window; the
    second site is reversed at the last two. *)
Definition two_site_run : npz :=
  mkNpz [[0; 0; 0]; [0; 0; 0]; [1; 1; -1]; [0; 0; 0]; [0; 0; 0]; [1; -1; -1]]
        [40; 50; 60].

End Kinematics.

(** ** The specification's terms of the effective field *)

Module FieldModel.

Import LlgEngine.
Local Open Scope R_scope.

(** Site [i] of a periodic chain, for any integer [i]. *)
Definition site (S : chain) (i : Z) : V3 :=
  nth (Z.to_nat (i mod Z.of_nat (length S))) S zero3.

Definition B_heis (S : chain) (J : R) (i : Z) : V3 :=
  vscale J (vadd (site S (i - 1)) (site S (i + 1))).

Definition B_dmi (S : chain) (D : R) (i : Z) : V3 :=
  let diff := vsub (site S (i + 1)) (site S (i - 1)) in
  mkV3 (- (D * vy diff)) (D * vx diff) 0.

Definition B_aniso (S : chain) (Da : R) (i : Z) : V3 :=
  mkV3 0 0 (- (2 * Da * vz (site S i))).

(** The dissipative precession law at one site. *)
Definition precession_law (alpha gamma : R) (s b : V3) : V3 :=
  vsub (vscale (- gamma) (cross s b)) (vscale alpha (cross s (cross s b))).

(** An external field that is a scalar or has one row per site. *)
Definition fits (N : nat) (h : field) : Prop :=
  match h with
  | Scalar _ => True
  | Sites H => length H = N
  end.

(** *** Closed forms of intermediate arrays of the code *)

(** The three internal contributions of [calculate_B_eff], summed as the
    code sums them, before the external field is added. *)
Definition internal_field (J D Da : R) (S : chain) : chain :=
  let s_next := roll (-1) S in
  let s_prev := roll 1 S in
  map2 vadd
    (map2 vadd (map (vscale J) (map2 vadd s_prev s_next))
               (map (fun d => mkV3 (- D * vy d) (D * vx d) 0) (map2 vsub s_next s_prev)))
    (map (fun s => mkV3 0 0 (-2 * Da * vz s)) S).

(** [v / n] on one row, when the division is defined. *)
Definition vquot (v : V3) (n : R) : V3 := mkV3 (vx v / n) (vy v / n) (vz v / n).

(** The value of [S] in [llg_rhs] after [S /= norms]. *)
Definition renormalized (S : chain) : chain :=
  map2 vquot S (fix_zero_norms (map norm S)).

(** [dSdt] of [llg_rhs] for a field [B_eff] with one row per site. *)
Definition rhs_rows (alpha gamma : R) (S B_eff : chain) : chain :=
  map2 vadd (map (vscale (- gamma)) (map2 cross S B_eff))
            (map (vscale (- alpha)) (map2 cross S (map2 cross S B_eff))).

(** Rows [3i], [3i+1], [3i+2] of a flat array, as one vector. *)
Definition row_of (a : list R) (i : nat) : V3 :=
  mkV3 (nth (3 * i) a 0) (nth (3 * i + 1) a 0) (nth (3 * i + 2) a 0).

End FieldModel.

(** ** Concrete runs of the relaxation on a chain of one site *)

Module Scenarios.

Import LlgEngine.
Local Open Scope R_scope.

(** Antiferromagnetic exchange with a full step: every iteration reverses
    the spin, so the relaxation never settles. *)
Definition flip_J : R := -1.
Definition flip_dt : R := 1.
Definition flip_draw : chain := [mkV3 (1 / 2) (1 / 2) (3 / 4)].
Definition up : chain := [mkV3 0 0 1].
Definition down : chain := [mkV3 0 0 (-1)].

(** Exchange and easy-axis anisotropy chosen so that one iteration projects
    the spin on the third axis, where it stays. *)
Definition settle_J : R := - (1 / 2).
Definition settle_Da : R := - (1 / 2).
Definition settle_dt : R := 1.
Definition settle_draw : chain := [mkV3 (4 / 5) (1 / 2) (9 / 10)].
Definition settle_start : chain := [mkV3 (3 / 5) 0 (4 / 5)].

(** A chain of two sites with its external field, and a flat state of two
    sites whose second spin has zero norm. *)
Definition pair_S : chain := [mkV3 1 0 0; mkV3 0 1 0].
Definition pair_H : chain := [mkV3 0 0 (1 / 10); mkV3 (1 / 2) 0 0].
Definition degenerate_state : list R := [2; 0; 0; 0; 0; 0].

(** [pair_S], flattened. *)
Definition pair_state : list R := [1; 0; 0; 0; 1; 0].

End Scenarios.

(** ** The external field of [scripts/runners/run_mobility_scan.py] *)

Module MobilityScan.

Import LlgEngine.
Local Open Scope R_scope.



(** The keyword bundles of the run script: [h_pulse_params], a dictionary
    with the five keys of [pulsed_field_generator], and [h_args] with the
    keys ['pulse_params'] and ['h_dc']. *)
Record pulse_params : Type :=
  mkPulse { h0 : R; t0 : R; tau : R; i0 : R; sigma : R }.

Record field_args : Type :=
  mkFieldArgs { pulse_params_arg : pulse_params; h_dc : R }.




(** The parameters of the run script: [N], [h_pulse_params] and the
    [h_args] of one simulation at static field [h_dc]. *)
Definition N_sites : nat := 200.

Definition h_pulse_params : pulse_params :=
  mkPulse (- 10 * 1) 2 (5 / 10) (INR (N_sites / 2)) 3.

Definition h_args (h_dc : R) : field_args := mkFieldArgs h_pulse_params h_dc.


End MobilityScan.

(** ** The phase classifier of [scripts/core/phase_diagram.py] *)

Module PhaseDiagram.

Import LlgEngine.
Import String.
Local Open Scope R_scope.

Definition FM : string := "FM".
Definition SL : string := "SL".
Definition H : string := "H".

(** A float that may be nan: [None] is nan, and every comparison with nan
    is false. *)
Definition float_gt (a : option R) (b : R) : bool :=
  match a with
  | Some x => if Rlt_dec b x then true else false
  | None => false
  end.

Definition float_lt (a : option R) (b : R) : bool :=
  match a with
  | Some x => if Rlt_dec x b then true else false
  | None => false
  end.

Definition total (xs : list R) : R := fold_right Rplus 0 xs.

(** [np.mean]: nan (with a warning) on an empty array. *)
Definition np_mean (xs : list R) : option R :=
  match xs with
  | [] => None
  | _ :: _ => Some (total xs / INR (List.length xs))
  end.

(** [np.std]: the square root of the mean squared deviation from the mean. *)
Definition np_std (xs : list R) : option R :=
  match np_mean xs with
  | None => None
  | Some m => option_map sqrt (np_mean (map (fun x => (x - m) * (x - m)) xs))
  end.

Definition analyze_phase (S : chain) : string :=
  let sz_mean := np_mean (map vz S) in
  let sz_std := np_std (map vz S) in
  if float_gt sz_mean (95 / 100) then FM
  else if float_lt sz_std (6 / 10) then SL
  else H.

End PhaseDiagram.

(** ** The mobility loop of [scripts/analysis/calculate_mobility.py] *)

Module MobilityAnalysis.

Import Kinematics.
Local Open Scope Q_scope.

Section Scan.

Variable Filename : Type.
Variable np_load : Filename -> result npz.
Variable curve_fit : (Q -> Q -> Q -> Q) -> list Q -> list Q -> result (pyfloat * pyfloat).

(** [os.path.join(DATA_DIR, f"datos_a{alpha_str}_h{hdc_str}.npz")] *)
Variable filename_of : Q -> Q -> Filename.

(** The loop over [H_DC_values] for one [alpha]; the result is the pair
    [(velocities_for_this_alpha, hdc_for_this_alpha)]. *)
Fixpoint velocities_for (alpha : Q) (H_DC_values : list Q) : result (list Q * list Q) :=
  match H_DC_values with
  | [] => Ok ([], [])
  | h_dc :: rest =>
      v <- calculate_velocity Filename np_load curve_fit (filename_of alpha h_dc) ;;
      later <- velocities_for alpha rest ;;
      match v with
      | Num q => Ok (q :: fst later, h_dc :: snd later)
      | NaN => Ok later
      end
  end.

(** The body of the loop over [alpha_values]: the pair appended to
    [(alpha_plot, mu_plot)], if any. *)
Definition mobility_for (alpha : Q) (H_DC_values : list Q) : result (option (Q * pyfloat)) :=
  collected <- velocities_for alpha H_DC_values ;;
  let velocities_for_this_alpha := fst collected in
  let hdc_for_this_alpha := snd collected in
  if Nat.ltb (length hdc_for_this_alpha) 2 then Ok None
  else
    match curve_fit linear_func hdc_for_this_alpha velocities_for_this_alpha with
    | Ok params => Ok (Some (alpha, fst params))
    | Raise RuntimeError => Ok None
    | Raise e => Raise e
    end.

(** The main loop; the result is [(alpha_plot, mu_plot)]. *)
Fixpoint mobility_scan (alpha_values H_DC_values : list Q)
  : result (list Q * list pyfloat) :=
  match alpha_values with
  | [] => Ok ([], [])
  | alpha :: rest =>
      entry <- mobility_for alpha H_DC_values ;;
      later <- mobility_scan rest H_DC_values ;;
      match entry with
      | Some (a, mu) => Ok (a :: fst later, mu :: snd later)
      | None => Ok later
      end
  end.

End Scan.

End MobilityAnalysis.

(** ** Configurations used to state further properties *)

Module Configurations.

Import LlgEngine.
Local Open Scope R_scope.

(** A chain of [N] equal spins. *)
Definition uniform (N : nat) (s : V3) : chain := repeat s N.

(** [a * S1 + b * S2], row by row. *)
Definition combination (a : R) (S1 : chain) (b : R) (S2 : chain) : chain :=
  map2 vadd (map (vscale a) S1) (map (vscale b) S2).

(** The only spin without a direction. *)
Definition is_zero (v : V3) : Prop := vx v = 0 /\ vy v = 0 /\ vz v = 0.

(** A selection of the elements of a list, in their order. *)
Inductive selection {A : Type} : list A -> list A -> Prop :=
| selection_nil : selection [] []
| selection_keep x l l' : selection l l' -> selection (x :: l) (x :: l')
| selection_skip x l l' : selection l l' -> selection l (x :: l').

End Configurations.

(** ** The renormalization of [llg_rhs] on IEEE doubles *)

Module Doubles.

Import Floats.
Local Open Scope float_scope.

(** One row of an (N, 3) array of doubles. *)
Record D3 : Type := mkD3 { dx : float; dy : float; dz : float }.

Definition zero : float := 0.
Definition one : float := 1.

(** 2^700 and 2^-700: the square of the first overflows to infinity, the
    square of the second underflows to 0. *)
Definition huge : float := 0x1p+700.
Definition tiny : float := 0x1p-700.

(** The double next below 1, and the double nearest to 1 / sqrt 2. *)
Definition below_one : float := 0x1.fffffffffffffp-1.
Definition half_sqrt2 : float := 0x1.6a09e667f3bccp-1.

(** [np.linalg.norm(S, axis=1, keepdims=True)] on one row:
    [sqrt(add.reduce(x * x))]. *)
Definition norm (a : D3) : float :=
  PrimFloat.sqrt (dx a * dx a + dy a * dy a + dz a * dz a).

(** [norms[norms == 0] = 1] *)
Definition fix_zero_norms (norms : list float) : list float :=
  map (fun n => if PrimFloat.eqb n 0 then 1 else n) norms.

(** Row-wise division [S /= norms]; a zero divisor is marked as in
    [LlgEngine.vdiv]. *)
Definition vdiv (v : D3) (n : float) : result D3 :=
  if PrimFloat.eqb n 0 then Raise ZeroDivide
  else Ok (mkD3 (dx v / n) (dy v / n) (dz v / n)).

Definition divide_rows (S : list D3) (norms : list float) : result (list D3) :=
  mapM2 vdiv S norms.

(** Lines 72 to 74 of [llg_rhs]: the working configuration after
    [S /= norms]. *)
Definition renormalize (S : list D3) : result (list D3) :=
  divide_rows S (fix_zero_norms (map norm S)).

(** The divisor of one row. *)
Definition divisor (v : D3) : float :=
  if PrimFloat.eqb (norm v) 0 then 1 else norm v.

(** A state of three sites: a long spin, a short one and an ordinary one. *)
Definition sharp_state : list D3 :=
  [mkD3 huge zero zero; mkD3 tiny zero zero; mkD3 one one zero].

End Doubles.

(** ** Lists, [roll] and the zips *)

Section ListFacts.

Context {A B C : Type}.

Lemma length_map2 (f : A -> B -> C) (l : list A) (l' : list B) :
  length (map2 f l l') = Nat.min (length l) (length l').
Proof.
  revert l'; induction l as [|a l IH]; intros [|b l']; simpl; auto.
Qed.

Lemma nth_map2 (f : A -> B -> C) (l : list A) (l' : list B) i da db dc :
  (i < length l)%nat -> (i < length l')%nat ->
  nth i (map2 f l l') dc = f (nth i l da) (nth i l' db).
Proof.
  revert l' i; induction l as [|a l IH]; intros [|b l'] [|i]; simpl; intros; try lia; auto.
  apply IH; lia.
Qed.

Lemma roll_nonempty (k : Z) (l : list A) :
  (0 < length l)%nat ->
  roll k l = skipn (length l - Z.to_nat (k mod Z.of_nat (length l))) l
             ++ firstn (length l - Z.to_nat (k mod Z.of_nat (length l))) l.
Proof.
  unfold roll. destruct (length l); [lia | reflexivity].
Qed.

Lemma length_roll (k : Z) (l : list A) : length (roll k l) = length l.
Proof.
  destruct l as [|a l]; [reflexivity|].
  rewrite roll_nonempty by (simpl; lia).
  set (n := length (a :: l)).
  rewrite length_app, length_skipn, length_firstn.
  assert (0 <= k mod Z.of_nat n < Z.of_nat n)%Z
    by (apply Z.mod_pos_bound; unfold n; simpl; lia).
  lia.
Qed.

Lemma nth_roll (k : Z) (l : list A) (i : nat) (d : A) :
  (i < length l)%nat ->
  nth i (roll k l) d
  = nth (Z.to_nat ((Z.of_nat i - k) mod Z.of_nat (length l))) l d.
Proof.
  intros Hi. destruct l as [|a l]; [simpl in Hi; lia|].
  rewrite roll_nonempty by (simpl; lia).
  set (n := length (a :: l)) in *.
  assert (Hn : (0 < Z.of_nat n)%Z) by (unfold n; simpl; lia).
  pose proof (Z.mod_pos_bound k (Z.of_nat n) Hn) as Hs.
  set (s := (k mod Z.of_nat n)%Z) in *.
  assert (Hk : ((Z.of_nat i - k) mod Z.of_nat n = (Z.of_nat i - s) mod Z.of_nat n)%Z).
  { unfold s. rewrite Zminus_mod_idemp_r. reflexivity. }
  rewrite Hk.
  destruct (Nat.lt_ge_cases i (Z.to_nat s)) as [Hlt|Hge].
  - rewrite app_nth1 by (rewrite length_skipn; lia).
    rewrite nth_skipn. f_equal.
    replace ((Z.of_nat i - s) mod Z.of_nat n)%Z with (Z.of_nat i - s + Z.of_nat n)%Z.
    + lia.
    + apply Z.mod_unique with (q := (-1)%Z); lia.
  - rewrite app_nth2 by (rewrite length_skipn; lia).
    rewrite length_skipn.
    rewrite nth_firstn. fold n.
    replace (n - (n - Z.to_nat s))%nat with (Z.to_nat s) by lia.
    assert (Hlt : (i - Z.to_nat s <? n - Z.to_nat s)%nat = true)
      by (apply Nat.ltb_lt; lia).
    rewrite Hlt. f_equal.
    rewrite Z.mod_small by lia. lia.
Qed.

End ListFacts.

Ltac list_length :=
  repeat (rewrite ?length_map2, ?length_map, ?length_roll); try lia.

Section MoreListFacts.

Context {A B : Type}.

Lemma nth_map_lt (f : A -> B) (l : list A) (i : nat) (d : A) (d' : B) :
  (i < length l)%nat -> nth i (map f l) d' = f (nth i l d).
Proof.
  intros Hi. rewrite (nth_indep _ d' (f d)) by (rewrite length_map; exact Hi).
  apply map_nth.
Qed.

Lemma nth_ext_lt (l l' : list A) (d : A) :
  length l = length l' ->
  (forall i, (i < length l)%nat -> nth i l d = nth i l' d) ->
  l = l'.
Proof.
  intros Hlen Hnth. apply (nth_ext l l' d d); auto.
Qed.

End MoreListFacts.

(** ** The effective field *)

Section EffectiveField.

Import LlgEngine FieldModel.
Local Open Scope R_scope.

Variables (J D Da : R).

Lemma calculate_B_eff_internal (S : chain) (h : field) :
  calculate_B_eff S J D Da h = add_external (internal_field J D Da S) h.
Proof. reflexivity. Qed.

Lemma length_internal_field (S : chain) :
  length (internal_field J D Da S) = length S.
Proof.
  unfold internal_field. list_length.
Qed.

Lemma nth_site (S : chain) (i : nat) :
  (i < length S)%nat -> nth i S zero3 = site S (Z.of_nat i).
Proof.
  intros Hi. unfold site. rewrite Z.mod_small by lia. now rewrite Nat2Z.id.
Qed.

Lemma nth_roll_site (S : chain) (k : Z) (i : nat) :
  (i < length S)%nat -> nth i (roll k S) zero3 = site S (Z.of_nat i - k).
Proof. intros Hi. now rewrite nth_roll. Qed.

Lemma nth_internal_field (S : chain) (i : nat) :
  (i < length S)%nat ->
  nth i (internal_field J D Da S) zero3
  = vadd (vadd (B_heis S J (Z.of_nat i)) (B_dmi S D (Z.of_nat i)))
         (B_aniso S Da (Z.of_nat i)).
Proof.
  intros Hi. unfold internal_field.
  assert (Hr : forall k, (i < length (roll k S))%nat)
    by (intros k; now rewrite length_roll).
  assert (H2 : forall (f : V3 -> V3 -> V3) a b,
             (i < length (map2 f (roll a S) (roll b S)))%nat)
    by (intros; rewrite length_map2, !length_roll; lia).
  rewrite (nth_map2 _ _ _ _ zero3 zero3) by list_length.
  rewrite (nth_map2 _ _ _ _ zero3 zero3) by list_length.
  rewrite (nth_map_lt _ _ _ zero3) by apply H2.
  rewrite (nth_map_lt _ _ _ zero3) by apply H2.
  rewrite (nth_map_lt _ _ _ zero3) by exact Hi.
  rewrite !(nth_map2 _ _ _ _ zero3 zero3) by apply Hr.
  rewrite !nth_roll_site by exact Hi.
  rewrite nth_site by exact Hi.
  replace (Z.of_nat i - -1)%Z with (Z.of_nat i + 1)%Z by lia.
  unfold B_heis, B_dmi, B_aniso, vadd, vsub, vscale; simpl.
  f_equal; ring.
Qed.

End EffectiveField.

(** C1.  With an external field given per site, [calculate_B_eff] returns an
    array of N rows whose row [i] is exactly
    B_heis[i] + B_dmi[i] + B_aniso[i] + H_ext[i], the three terms being the
    specification's: exchange J (S[i-1] + S[i+1]) with periodic neighbours,
    DMI (-D diff.y, D diff.x, 0) with diff = S[i+1] - S[i-1], anisotropy
    (0, 0, -2 Da S[i].z). *)
Theorem calculate_B_eff_sum_of_terms :
  forall (S H_ext : LlgEngine.chain) (J D Da : R),
    length H_ext = length S ->
    exists B_eff,
      LlgEngine.calculate_B_eff S J D Da (LlgEngine.Sites H_ext) = Ok B_eff /\
      length B_eff = length S /\
      forall i, (i < length S)%nat ->
        nth i B_eff LlgEngine.zero3
        = LlgEngine.vadd
            (LlgEngine.vadd
               (LlgEngine.vadd (FieldModel.B_heis S J (Z.of_nat i))
                               (FieldModel.B_dmi S D (Z.of_nat i)))
               (FieldModel.B_aniso S Da (Z.of_nat i)))
            (nth i H_ext LlgEngine.zero3).
Proof.
  intros S H_ext J D Da Hlen.
  exists (map2 LlgEngine.vadd (FieldModel.internal_field J D Da S) H_ext).
  rewrite calculate_B_eff_internal. simpl. unfold LlgEngine.broadcast2.
  rewrite length_internal_field, Hlen, Nat.eqb_refl.
  split; [reflexivity|]. split.
  - rewrite length_map2, length_internal_field. lia.
  - intros i Hi.
    rewrite (nth_map2 _ _ _ _ LlgEngine.zero3 LlgEngine.zero3)
      by (rewrite ?length_internal_field; lia).
    now rewrite nth_internal_field.
Qed.

(** ** Cyclic relabelling *)

Section RollFacts.

Context {A B C : Type}.

Lemma roll_map (f : A -> B) (k : Z) (l : list A) :
  roll k (map f l) = map f (roll k l).
Proof.
  unfold roll. rewrite length_map.
  destruct (length l); [reflexivity|].
  now rewrite map_app, skipn_map, firstn_map.
Qed.

Lemma roll_index_bound (k : Z) (n i : nat) :
  (0 < n)%nat ->
  (Z.to_nat ((Z.of_nat i - k) mod Z.of_nat n) < n)%nat.
Proof.
  intros Hn.
  pose proof (Z.mod_pos_bound (Z.of_nat i - k) (Z.of_nat n)). lia.
Qed.

Lemma roll_roll (a b : Z) (l : list A) :
  roll a (roll b l) = roll (a + b) l.
Proof.
  destruct l as [|x l]; [reflexivity|].
  apply (nth_ext_lt _ _ x); [now rewrite !length_roll|].
  intros i Hi. rewrite !length_roll in Hi.
  rewrite nth_roll by now rewrite length_roll.
  rewrite length_roll.
  rewrite nth_roll by (apply roll_index_bound; lia).
  rewrite nth_roll by exact Hi.
  f_equal. f_equal.
  set (n := Z.of_nat (length (x :: l))).
  assert (0 < n)%Z by (unfold n; simpl; lia).
  rewrite Z2Nat.id by (apply Z.mod_pos_bound; lia).
  rewrite Zminus_mod_idemp_l. f_equal. lia.
Qed.

Lemma roll_comm (a b : Z) (l : list A) :
  roll a (roll b l) = roll b (roll a l).
Proof. rewrite !roll_roll. f_equal. lia. Qed.

Lemma roll_map2 (f : A -> B -> C) (k : Z) (l : list A) (l' : list B) :
  length l = length l' ->
  roll k (map2 f l l') = map2 f (roll k l) (roll k l').
Proof.
  intros Hlen.
  destruct l as [|x l], l' as [|y l']; try discriminate; [reflexivity|].
  set (u := x :: l) in *. set (v := y :: l') in *.
  assert (Hu : (0 < length u)%nat) by (unfold u; simpl; lia).
  apply (nth_ext_lt _ _ (f x y)).
  - list_length.
  - intros i Hi. rewrite length_roll, length_map2 in Hi.
    rewrite nth_roll by (rewrite length_map2; lia).
    rewrite length_map2, <- Hlen, Nat.min_id.
    rewrite (nth_map2 _ _ _ _ x y)
      by (rewrite <- ?Hlen; apply roll_index_bound; lia).
    rewrite (nth_map2 _ _ _ _ x y) by (rewrite length_roll; lia).
    rewrite !nth_roll by lia.
    now rewrite <- Hlen.
Qed.

End RollFacts.

Section Translation.

Import LlgEngine FieldModel.
Local Open Scope R_scope.

Variables (J D Da : R).

Lemma internal_field_roll (k : Z) (S : chain) :
  internal_field J D Da (roll k S) = roll k (internal_field J D Da S).
Proof.
  unfold internal_field.
  rewrite (roll_comm (-1) k), (roll_comm 1 k).
  rewrite <- !roll_map2 by list_length.
  rewrite <- !roll_map.
  rewrite <- !roll_map2 by list_length.
  reflexivity.
Qed.

End Translation.

(** C7.  [calculate_B_eff] commutes with every cyclic relabelling of the
    sites: on the spins and the per-site external field both rotated by
    [k] (numpy's [roll], any integer [k]) it returns the rotation by [k] of
    what it returns on the original input. *)
Theorem calculate_B_eff_translation_invariant :
  forall (S H_ext : LlgEngine.chain) (J D Da : R) (k : Z),
    length H_ext = length S ->
    exists B_eff,
      LlgEngine.calculate_B_eff S J D Da (LlgEngine.Sites H_ext) = Ok B_eff /\
      LlgEngine.calculate_B_eff (roll k S) J D Da (LlgEngine.Sites (roll k H_ext))
      = Ok (roll k B_eff).
Proof.
  intros S H_ext J D Da k Hlen.
  exists (map2 LlgEngine.vadd (FieldModel.internal_field J D Da S) H_ext).
  rewrite !calculate_B_eff_internal. simpl. unfold LlgEngine.broadcast2.
  rewrite !length_internal_field, !length_roll, Hlen, Nat.eqb_refl.
  split; [reflexivity|].
  rewrite internal_field_roll, roll_map2; [reflexivity|].
  now rewrite length_internal_field.
Qed.

(** ** Reshaping and renormalization *)

Section Renormalization.

Import LlgEngine FieldModel.
Local Open Scope R_scope.

Lemma divide_rows_nonzero (S : chain) (norms : list R) :
  Forall (fun n => n <> 0) norms ->
  divide_rows S norms = Ok (map2 vquot S norms).
Proof.
  intros Hnz. revert S. induction Hnz as [|n norms Hn _ IH]; intros [|v S]; try reflexivity.
  unfold divide_rows in *. simpl. unfold vdiv at 1.
  destruct (Req_dec_T n 0) as [E|_]; [contradiction|].
  simpl. rewrite IH. reflexivity.
Qed.

Lemma divide_rows_zero (S : chain) (norms : list R) (i : nat) :
  (i < length S)%nat -> (i < length norms)%nat -> nth i norms 1 = 0 ->
  exists e, divide_rows S norms = Raise e.
Proof.
  revert norms i. induction S as [|v S IH]; intros [|n norms] [|i]; simpl; try lia.
  - intros _ _ ->. unfold divide_rows. simpl. unfold vdiv.
    destruct (Req_dec_T 0 0) as [_|N]; [|contradiction]. now exists ZeroDivide.
  - intros Hi Hn Hz. unfold divide_rows in *. simpl.
    destruct (vdiv v n) as [c|e]; simpl; [|now exists e].
    destruct (IH norms i) as [e He]; try lia; auto.
    rewrite He. now exists e.
Qed.

Lemma fix_zero_norms_nonzero (norms : list R) :
  Forall (fun n => n <> 0) (fix_zero_norms norms).
Proof.
  unfold fix_zero_norms. apply Forall_map, Forall_forall. intros n _.
  destruct (Req_dec_T n 0); [lra | assumption].
Qed.

Lemma renormalize_total (S : chain) : renormalize S = Ok (renormalized S).
Proof. apply divide_rows_nonzero, fix_zero_norms_nonzero. Qed.

Lemma length_renormalized (S : chain) : length (renormalized S) = length S.
Proof. unfold renormalized, fix_zero_norms. list_length. Qed.

Lemma nth_renormalized (S : chain) (i : nat) :
  (i < length S)%nat ->
  nth i (renormalized S) zero3
  = let s := nth i S zero3 in
    vquot s (if Req_dec_T (norm s) 0 then 1 else norm s).
Proof.
  intros Hi. unfold renormalized, fix_zero_norms.
  rewrite (nth_map2 _ _ _ _ zero3 1) by list_length.
  rewrite (nth_map_lt _ _ _ 0) by list_length.
  rewrite (nth_map_lt _ _ _ zero3) by exact Hi.
  reflexivity.
Qed.

Lemma norm_square (v : V3) : norm v * norm v = vx v * vx v + vy v * vy v + vz v * vz v.
Proof. unfold norm. apply sqrt_sqrt. nra. Qed.

Lemma norm_vquot (v : V3) : norm v <> 0 -> norm (vquot v (norm v)) = 1.
Proof.
  intros Hn. pose proof (norm_square v) as Hsq.
  unfold vquot. unfold norm at 1. simpl.
  replace (vx v / norm v * (vx v / norm v) + vy v / norm v * (vy v / norm v)
           + vz v / norm v * (vz v / norm v))
    with ((vx v * vx v + vy v * vy v + vz v * vz v) / (norm v * norm v))
    by (field; exact Hn).
  rewrite <- Hsq.
  replace (norm v * norm v / (norm v * norm v)) with 1 by (field; exact Hn).
  apply sqrt_1.
Qed.

Lemma vquot_one (v : V3) : vquot v 1 = v.
Proof. destruct v; unfold vquot; simpl. f_equal; field. Qed.

Lemma length_rows3 (a : list R) (N : nat) :
  length a = (3 * N)%nat -> length (rows3 a) = N.
Proof.
  revert a. induction N as [|N IH]; intros a Ha.
  - destruct a; [reflexivity | simpl in Ha; lia].
  - destruct a as [|x [|y [|z a]]]; simpl in Ha; try lia.
    simpl. f_equal. apply IH. lia.
Qed.

Lemma flatten_rows3 (a : list R) (N : nat) :
  length a = (3 * N)%nat -> flatten (rows3 a) = a.
Proof.
  revert a. induction N as [|N IH]; intros a Ha.
  - destruct a; [reflexivity | simpl in Ha; lia].
  - destruct a as [|x [|y [|z a]]]; simpl in Ha; try lia.
    simpl. do 3 f_equal. apply IH. lia.
Qed.

Lemma reshape_ok (a : list R) (N : nat) :
  length a = (3 * N)%nat -> reshape a N = Ok (rows3 a).
Proof. intros Ha. unfold reshape. now rewrite Ha, Nat.eqb_refl. Qed.

Lemma length_flatten (S : chain) : length (flatten S) = (3 * length S)%nat.
Proof. induction S as [|v S IH]; simpl; [reflexivity | rewrite IH; lia]. Qed.

Lemma nth_flatten (S : chain) (i : nat) :
  (i < length S)%nat ->
  nth (3 * i) (flatten S) 0 = vx (nth i S zero3) /\
  nth (3 * i + 1) (flatten S) 0 = vy (nth i S zero3) /\
  nth (3 * i + 2) (flatten S) 0 = vz (nth i S zero3).
Proof.
  revert i. induction S as [|v S IH]; intros i Hi; [simpl in Hi; lia|].
  destruct i as [|i]; [simpl; auto|].
  simpl in Hi. destruct (IH i ltac:(lia)) as (Hx & Hy & Hz).
  replace (3 * Datatypes.S i)%nat
    with (Datatypes.S (Datatypes.S (Datatypes.S (3 * i)))) by lia.
  change (flatten (v :: S)) with (vx v :: vy v :: vz v :: flatten S).
  cbn [nth Nat.add]. auto.
Qed.

End Renormalization.

(** ** The right-hand side of the LLG equation *)

Section RhsFacts.

Import LlgEngine FieldModel.
Local Open Scope R_scope.

Variable HArgs : Type.

Lemma broadcast2_same (f : V3 -> V3 -> V3) (a b : chain) :
  length a = length b -> broadcast2 f a b = Ok (map2 f a b).
Proof. intros H. unfold broadcast2. now rewrite H, Nat.eqb_refl. Qed.

Lemma calculate_B_eff_fits (S : chain) (J D Da : R) (h : field) :
  fits (length S) h ->
  exists B, calculate_B_eff S J D Da h = Ok B /\ length B = length S.
Proof.
  intros Hfit. rewrite calculate_B_eff_internal.
  destruct h as [c|H]; simpl in *.
  - eexists; split; [reflexivity|]. now rewrite length_map, length_internal_field.
  - rewrite broadcast2_same by now rewrite length_internal_field.
    eexists; split; [reflexivity|]. rewrite length_map2, length_internal_field. lia.
Qed.

Lemma nth_rows3 (a : list R) (N i : nat) :
  length a = (3 * N)%nat -> (i < N)%nat -> nth i (rows3 a) zero3 = row_of a i.
Proof.
  intros Ha Hi.
  pose proof (flatten_rows3 a N Ha) as Hflat.
  pose proof (length_rows3 a N Ha) as Hlen.
  destruct (nth_flatten (rows3 a) i) as (Hx & Hy & Hz); [lia|].
  rewrite Hflat in Hx, Hy, Hz. unfold row_of. rewrite Hx, Hy, Hz.
  now destruct (nth i (rows3 a) zero3).
Qed.

Lemma row_of_flatten (S : chain) (i : nat) :
  (i < length S)%nat -> row_of (flatten S) i = nth i S zero3.
Proof.
  intros Hi. destruct (nth_flatten S i Hi) as (Hx & Hy & Hz).
  unfold row_of. rewrite Hx, Hy, Hz. now destruct (nth i S zero3).
Qed.

Lemma length_rhs_rows (alpha gamma : R) (S B : chain) :
  length B = length S -> length (rhs_rows alpha gamma S B) = length S.
Proof. intros H. unfold rhs_rows. list_length. Qed.

Lemma nth_rhs_rows (alpha gamma : R) (S B : chain) (i : nat) :
  length B = length S -> (i < length S)%nat ->
  nth i (rhs_rows alpha gamma S B) zero3
  = vadd (vscale (- gamma) (cross (nth i S zero3) (nth i B zero3)))
         (vscale (- alpha) (cross (nth i S zero3)
                                  (cross (nth i S zero3) (nth i B zero3)))).
Proof.
  intros HB Hi. unfold rhs_rows.
  rewrite (nth_map2 _ _ _ _ zero3 zero3) by list_length.
  rewrite !(nth_map_lt _ _ _ zero3) by list_length.
  rewrite !(nth_map2 _ _ _ _ zero3 zero3) by list_length.
  reflexivity.
Qed.

(** What a call computes when the state has 3N entries and the external
    field is a scalar or has one row per site. *)
Lemma llg_rhs_value (t : R) (S_flat : list R) (N : nat) (J D Da alpha gamma : R)
    (f : option (R -> nat -> HArgs -> result field)) (kw : option HArgs) (h : field) :
  length S_flat = (3 * N)%nat ->
  external_field HArgs f kw t N = Ok h ->
  fits N h ->
  exists B,
    calculate_B_eff (renormalized (rows3 S_flat)) J D Da h = Ok B /\
    length B = N /\
    llg_rhs HArgs t S_flat N J D Da alpha gamma f kw
    = (flatten (renormalized (rows3 S_flat)),
       Ok (flatten (rhs_rows alpha gamma (renormalized (rows3 S_flat)) B))).
Proof.
  intros Hlen Hext Hfit.
  pose proof (length_rows3 _ _ Hlen) as Hrows.
  assert (HS : length (renormalized (rows3 S_flat)) = N)
    by now rewrite length_renormalized.
  destruct (calculate_B_eff_fits (renormalized (rows3 S_flat)) J D Da h)
    as (B & HB & HlenB); [now rewrite HS|].
  exists B. split; [exact HB|]. split; [lia|].
  unfold llg_rhs. rewrite reshape_ok by exact Hlen.
  rewrite renormalize_total. cbv zeta. rewrite Hext. cbn [bind].
  rewrite HB. cbn [bind].
  rewrite (broadcast2_same cross) by lia. cbn [bind].
  rewrite (broadcast2_same cross) by list_length. cbn [bind].
  rewrite (broadcast2_same vadd) by list_length. reflexivity.
Qed.

Lemma dot_precession_law (alpha gamma : R) (s b : V3) :
  dot (precession_law alpha gamma s b) s = 0.
Proof. unfold dot, precession_law, vsub, vscale, cross; simpl. ring. Qed.

Lemma rhs_is_precession_law (alpha gamma : R) (s b : V3) :
  vadd (vscale (- gamma) (cross s b)) (vscale (- alpha) (cross s (cross s b)))
  = precession_law alpha gamma s b.
Proof. unfold precession_law, vadd, vsub, vscale, cross; simpl. f_equal; ring. Qed.

End RhsFacts.


Section RenormalizedSites.

Import LlgEngine FieldModel.
Local Open Scope R_scope.

Lemma renormalized_site (a : list R) (N i : nat) :
  length a = (3 * N)%nat -> (i < N)%nat ->
  nth i (renormalized (rows3 a)) zero3
  = vquot (row_of a i)
          (if Req_dec_T (norm (row_of a i)) 0 then 1 else norm (row_of a i)).
Proof.
  intros Ha Hi.
  rewrite nth_renormalized by (rewrite (length_rows3 a N Ha); exact Hi).
  cbv zeta. now rewrite (nth_rows3 a N i Ha Hi).
Qed.

Lemma dot_vquot (r s : V3) (c : R) :
  c <> 0 -> dot r s = c * dot r (vquot s c).
Proof. intros Hc. unfold dot, vquot; simpl. field. exact Hc. Qed.

End RenormalizedSites.

Section DoublesFacts.

Import Doubles.

Lemma doubles_divide_rows_total (S : list D3) :
  exists S',
    Doubles.renormalize S = Ok S' /\
    length S' = length S /\
    forall i, (i < length S)%nat ->
      PrimFloat.eqb (divisor (nth i S (mkD3 zero zero zero))) zero = false /\
      nth i S' (mkD3 zero zero zero)
      = let v := nth i S (mkD3 zero zero zero) in
        mkD3 (PrimFloat.div (dx v) (divisor v)) (PrimFloat.div (dy v) (divisor v))
             (PrimFloat.div (dz v) (divisor v)).
Proof.
  unfold Doubles.renormalize, Doubles.divide_rows, Doubles.fix_zero_norms.
  induction S as [|v S IH].
  - exists []. split; [reflexivity|]. split; [reflexivity|].
    intros i Hi. simpl in Hi. lia.
  - destruct IH as (S' & HS' & Hlen & Hrows).
    assert (Hdiv : PrimFloat.eqb (divisor v) zero = false).
    { unfold divisor, zero.
      destruct (PrimFloat.eqb (Doubles.norm v) _) eqn:E; [reflexivity | exact E]. }
    exists (mkD3 (PrimFloat.div (dx v) (divisor v)) (PrimFloat.div (dy v) (divisor v))
                 (PrimFloat.div (dz v) (divisor v)) :: S').
    split.
    + cbn [map mapM2]. fold (divisor v). unfold Doubles.vdiv at 1.
      unfold zero in Hdiv. rewrite Hdiv. cbn [bind]. rewrite HS'. reflexivity.
    + split; [simpl; now rewrite Hlen|].
      intros [|i] Hi; simpl in Hi |- *.
      * split; [exact Hdiv | reflexivity].
      * apply Hrows. lia.
Qed.

End DoublesFacts.

(** C9 (amended).  On every flat state of 3N entries (the external field
    being a scalar or one row per site), [llg_rhs] returns normally: no
    division of the renormalization has a zero divisor.  The renormalized
    configuration [S] is what the call leaves in the caller's array and
    what the returned derivative is computed from.  In exact arithmetic a
    site of zero norm is left in [S] as it was, and every other site is
    the original vector divided by its norm and has norm 1.  On doubles
    the renormalization of every array completes as well: each row is
    divided by its computed norm, or by 1 when the computed norm is 0, and
    that divisor is never 0. *)
Theorem llg_rhs_renormalization_safe :
  forall (HArgs : Type) (t : R) (S_flat : list R) (N : nat) (J D Da alpha gamma : R)
         (h_external_func : option (R -> nat -> HArgs -> result LlgEngine.field))
         (h_args : option HArgs) (h_ext : LlgEngine.field),
    length S_flat = (3 * N)%nat ->
    LlgEngine.external_field HArgs h_external_func h_args t N = Ok h_ext ->
    FieldModel.fits N h_ext ->
    (exists S B_eff,
       (view <- LlgEngine.reshape S_flat N ;; LlgEngine.renormalize view) = Ok S /\
       length S = N /\
       LlgEngine.calculate_B_eff S J D Da h_ext = Ok B_eff /\
       LlgEngine.llg_rhs HArgs t S_flat N J D Da alpha gamma h_external_func h_args
       = (LlgEngine.flatten S,
          Ok (LlgEngine.flatten (FieldModel.rhs_rows alpha gamma S B_eff))) /\
       length (LlgEngine.flatten (FieldModel.rhs_rows alpha gamma S B_eff))
       = (3 * N)%nat /\
       forall i, (i < N)%nat ->
         let s := FieldModel.row_of S_flat i in
         FieldModel.row_of (LlgEngine.flatten S) i = nth i S LlgEngine.zero3 /\
         (LlgEngine.norm s = 0%R -> nth i S LlgEngine.zero3 = s) /\
         (LlgEngine.norm s <> 0%R ->
            nth i S LlgEngine.zero3 = FieldModel.vquot s (LlgEngine.norm s) /\
            LlgEngine.norm (nth i S LlgEngine.zero3) = 1%R)) /\
    (forall Sd : list Doubles.D3,
       exists Sd',
         Doubles.renormalize Sd = Ok Sd' /\
         length Sd' = length Sd /\
         forall i, (i < length Sd)%nat ->
           let v := nth i Sd (Doubles.mkD3 Doubles.zero Doubles.zero Doubles.zero) in
           PrimFloat.eqb (Doubles.divisor v) Doubles.zero = false /\
           nth i Sd' (Doubles.mkD3 Doubles.zero Doubles.zero Doubles.zero)
           = Doubles.mkD3 (PrimFloat.div (Doubles.dx v) (Doubles.divisor v))
                          (PrimFloat.div (Doubles.dy v) (Doubles.divisor v))
                          (PrimFloat.div (Doubles.dz v) (Doubles.divisor v))).
Proof.
  intros HArgs t S_flat N J D Da alpha gamma f kw h Hlen Hext Hfit.
  split; [|exact doubles_divide_rows_total].
  destruct (llg_rhs_value HArgs t S_flat N J D Da alpha gamma f kw h Hlen Hext Hfit)
    as (B & HB & HlenB & Hrhs).
  pose proof (length_rows3 _ _ Hlen) as Hrows.
  assert (HS : length (FieldModel.renormalized (LlgEngine.rows3 S_flat)) = N)
    by now rewrite length_renormalized.
  exists (FieldModel.renormalized (LlgEngine.rows3 S_flat)), B.
  rewrite reshape_ok by exact Hlen. cbn [bind]. rewrite renormalize_total.
  split; [reflexivity|]. split; [exact HS|]. split; [exact HB|].
  split; [exact Hrhs|]. split.
  { rewrite length_flatten, length_rhs_rows; lia. }
  intros i Hi. cbv zeta. split.
  { apply row_of_flatten. lia. }
  rewrite (renormalized_site S_flat N i Hlen Hi).
  set (s := FieldModel.row_of S_flat i).
  destruct (Req_dec_T (LlgEngine.norm s) 0) as [Hz|Hnz]; split; intros Hs.
  - apply vquot_one.
  - contradiction.
  - contradiction.
  - split; [reflexivity|]. now apply norm_vquot.
Qed.

(** C10.  On every flat state of 3N entries (the external field being a
    scalar or one row per site) [llg_rhs] returns 3N numbers, the three at
    site [i] being the precession law at the renormalized spin [S i]; that
    derivative is orthogonal to [S i], and to the site's spin in the state
    the function was called on: in exact arithmetic the squared norm of
    each spin has zero derivative along the right-hand side. *)
Theorem llg_rhs_orthogonal_to_spin :
  forall (HArgs : Type) (t : R) (S_flat : list R) (N : nat) (J D Da alpha gamma : R)
         (h_external_func : option (R -> nat -> HArgs -> result LlgEngine.field))
         (h_args : option HArgs) (h_ext : LlgEngine.field),
    length S_flat = (3 * N)%nat ->
    LlgEngine.external_field HArgs h_external_func h_args t N = Ok h_ext ->
    FieldModel.fits N h_ext ->
    exists S B_eff dSdt,
      (view <- LlgEngine.reshape S_flat N ;; LlgEngine.renormalize view) = Ok S /\
      length S = N /\
      LlgEngine.calculate_B_eff S J D Da h_ext = Ok B_eff /\
      LlgEngine.llg_rhs HArgs t S_flat N J D Da alpha gamma h_external_func h_args
      = (LlgEngine.flatten S, Ok dSdt) /\
      length dSdt = (3 * N)%nat /\
      forall i, (i < N)%nat ->
        FieldModel.row_of dSdt i
        = FieldModel.precession_law alpha gamma
            (nth i S LlgEngine.zero3) (nth i B_eff LlgEngine.zero3) /\
        LlgEngine.dot (FieldModel.row_of dSdt i) (nth i S LlgEngine.zero3) = 0%R /\
        LlgEngine.dot (FieldModel.row_of dSdt i) (FieldModel.row_of S_flat i) = 0%R.
Proof.
  intros HArgs t S_flat N J D Da alpha gamma f kw h Hlen Hext Hfit.
  destruct (llg_rhs_value HArgs t S_flat N J D Da alpha gamma f kw h Hlen Hext Hfit)
    as (B & HB & HlenB & Hrhs).
  pose proof (length_rows3 _ _ Hlen) as Hrows.
  assert (HS : length (FieldModel.renormalized (LlgEngine.rows3 S_flat)) = N)
    by now rewrite length_renormalized.
  exists (FieldModel.renormalized (LlgEngine.rows3 S_flat)), B.
  eexists.
  rewrite reshape_ok by exact Hlen. cbn [bind]. rewrite renormalize_total.
  split; [reflexivity|]. split; [exact HS|]. split; [exact HB|].
  split; [exact Hrhs|]. split.
  { rewrite length_flatten, length_rhs_rows; lia. }
  intros i Hi.
  rewrite row_of_flatten by (rewrite length_rhs_rows; lia).
  rewrite nth_rhs_rows by lia.
  rewrite rhs_is_precession_law.
  assert (Horth := dot_precession_law alpha gamma
                     (nth i (FieldModel.renormalized (LlgEngine.rows3 S_flat))
                          LlgEngine.zero3)
                     (nth i B LlgEngine.zero3)).
  split; [reflexivity|]. split; [exact Horth|].
  rewrite (renormalized_site S_flat N i Hlen Hi) in Horth |- *.
  set (s := FieldModel.row_of S_flat i) in *.
  set (c := if Req_dec_T (LlgEngine.norm s) 0 then 1%R else LlgEngine.norm s) in *.
  assert (Hc : c <> 0%R).
  { unfold c. destruct (Req_dec_T (LlgEngine.norm s) 0); [lra | assumption]. }
  rewrite (dot_vquot _ s c Hc), Horth. ring.
Qed.

(** C6.  The caller's array should hold the same values after a call of
    [llg_rhs] as before it.  The reshaped view shares the caller's buffer
    and is divided in place: called on the state [2; 0; 0] of a chain of
    one site, [llg_rhs] leaves [1; 0; 0] in the caller's array. *)
Theorem llg_rhs_overwrites_caller_state :
  fst (LlgEngine.llg_rhs unit 0%R [2%R; 0%R; 0%R] 1 1%R 0%R 0%R 0%R 1%R None None)
  = [1%R; 0%R; 0%R]
  /\ [1%R; 0%R; 0%R] <> [2%R; 0%R; 0%R].
Proof.
  split.
  - destruct (llg_rhs_value unit 0%R [2%R; 0%R; 0%R] 1 1%R 0%R 0%R 0%R 1%R
                None None (LlgEngine.Scalar 0%R))
      as (B & _ & _ & Hrhs); [reflexivity | reflexivity | exact I |].
    rewrite Hrhs. simpl fst.
    unfold FieldModel.renormalized, LlgEngine.fix_zero_norms. simpl.
    assert (Hn : LlgEngine.norm (LlgEngine.mkV3 2 0 0) = 2%R).
    { unfold LlgEngine.norm. simpl.
      replace (2 * 2 + 0 * 0 + 0 * 0)%R with (2 * 2)%R by ring.
      apply sqrt_square. lra. }
    rewrite Hn. destruct (Req_dec_T 2 0) as [E|_]; [lra|].
    simpl. repeat f_equal; field.
  - intros E. injection E. lra.
Qed.

(** ** Ground-state relaxation *)

Section GroundState.

Import LlgEngine FieldModel.
Local Open Scope R_scope.

Variables (J D Da tolerance dt_relax : R).

Lemma iterate_succ (k : nat) (S S1 : chain) :
  relax_step J D Da dt_relax S = Ok S1 ->
  iterate J D Da dt_relax (Datatypes.S k) S = iterate J D Da dt_relax k S1.
Proof. intros H. simpl. now rewrite H. Qed.

Lemma iterate_defined_head (k : nat) (S Sk : chain) :
  iterate J D Da dt_relax (Datatypes.S k) S = Ok Sk ->
  exists S1, relax_step J D Da dt_relax S = Ok S1 /\
             iterate J D Da dt_relax k S1 = Ok Sk.
Proof.
  simpl. destruct (relax_step J D Da dt_relax S) as [S1|e]; simpl; [|discriminate].
  intros H. now exists S1.
Qed.

Lemma relax_loop_succ (remaining step : nat) (S : chain) :
  relax_loop J D Da tolerance dt_relax (Datatypes.S remaining) step S
  = (S1 <- relax_step J D Da dt_relax S ;;
     if Nat.eqb (step mod 500) 0 then
       change <- max_abs_diff S1 S ;;
       if Rlt_dec change tolerance then Ok S1
       else relax_loop J D Da tolerance dt_relax remaining (Datatypes.S step) S1
     else relax_loop J D Da tolerance dt_relax remaining (Datatypes.S step) S1).
Proof. reflexivity. Qed.

(** The loop entered at [step] stops at the first checkpoint (a step
    index that is a multiple of 500) whose own iteration is a small step,
    with the configuration that iteration produced. *)
Lemma relax_loop_first_small_step :
  forall (k remaining step : nat) (S S_old S_new : chain) (change : R),
    (k < remaining)%nat ->
    ((step + k) mod 500 = 0)%nat ->
    (forall j, (j < k)%nat -> ((step + j) mod 500 = 0)%nat ->
               large_step J D Da tolerance dt_relax j S) ->
    iterate J D Da dt_relax k S = Ok S_old ->
    relax_step J D Da dt_relax S_old = Ok S_new ->
    max_abs_diff S_new S_old = Ok change ->
    change < tolerance ->
    relax_loop J D Da tolerance dt_relax remaining step S = Ok S_new.
Proof.
  induction k as [|k IH]; intros remaining step S S_old S_new change
    Hrem Hmod Hlarge Hiter Hstep Hchange Hlt.
  - destruct remaining as [|remaining]; [lia|].
    simpl in Hiter. injection Hiter as <-.
    rewrite Nat.add_0_r in Hmod.
    rewrite relax_loop_succ, Hstep. cbn [bind].
    apply Nat.eqb_eq in Hmod. rewrite Hmod, Hchange. cbn [bind].
    destruct (Rlt_dec change tolerance); [reflexivity | contradiction].
  - destruct remaining as [|remaining]; [lia|].
    destruct (iterate_defined_head _ _ _ Hiter) as (S1 & HS1 & Hiter1).
    assert (Hrec : relax_loop J D Da tolerance dt_relax remaining (Datatypes.S step) S1
                   = Ok S_new).
    { apply (IH remaining (Datatypes.S step) S1 S_old S_new change); auto; try lia.
      - replace (Datatypes.S step + k)%nat with (step + Datatypes.S k)%nat by lia.
        exact Hmod.
      - intros j Hj Hjmod.
        destruct (Hlarge (Datatypes.S j)) as (A & B & c & HA & HB & Hc & Hnlt);
          [lia | replace (step + Datatypes.S j)%nat
                   with (Datatypes.S step + j)%nat by lia; exact Hjmod |].
        rewrite (iterate_succ _ _ _ HS1) in HA.
        now exists A, B, c. }
    rewrite relax_loop_succ, HS1. cbn [bind].
    destruct (Nat.eqb (step mod 500) 0) eqn:Hcp; [|exact Hrec].
    apply Nat.eqb_eq in Hcp.
    destruct (Hlarge 0%nat) as (A & B & c & HA & HB & Hc & Hnlt);
      [lia | now rewrite Nat.add_0_r |].
    simpl in HA. injection HA as <-.
    rewrite HS1 in HB. injection HB as <-.
    rewrite Hc. cbn [bind].
    destruct (Rlt_dec c tolerance); [contradiction | exact Hrec].
Qed.

End GroundState.

(** C3 (amended).  [find_ground_state] tests convergence at the steps whose
    index is a multiple of 500 (0, 500, 1000, ...).  The change it tests is
    the one made by that single iteration: the maximum over all components
    of |S - S_old|, [S_old] being the configuration just before the
    iteration.  At the first such step below [max_steps] where this change
    is below [tolerance], it returns the configuration the iteration
    produced. *)
Theorem find_ground_state_stops_on_small_checkpoint_step :
  forall (J D Da tolerance dt_relax : R) (draw : LlgEngine.chain) (max_steps : nat)
         (S0 S_old S_new : LlgEngine.chain) (k : nat) (change : R),
    LlgEngine.divide_rows
      (map (fun v => LlgEngine.vadd_scalar v (- (5 / 10))%R) draw)
      (map LlgEngine.norm (map (fun v => LlgEngine.vadd_scalar v (- (5 / 10))%R) draw))
    = Ok S0 ->
    (k < max_steps)%nat ->
    (k mod 500 = 0)%nat ->
    (forall j, (j < k)%nat -> (j mod 500 = 0)%nat ->
               LlgEngine.large_step J D Da tolerance dt_relax j S0) ->
    LlgEngine.iterate J D Da dt_relax k S0 = Ok S_old ->
    LlgEngine.relax_step J D Da dt_relax S_old = Ok S_new ->
    LlgEngine.max_abs_diff S_new S_old = Ok change ->
    (change < tolerance)%R ->
    LlgEngine.find_ground_state draw J D Da max_steps tolerance dt_relax = Ok S_new.
Proof.
  intros J D Da tolerance dt_relax draw max_steps S0 S_old S_new k change
    Hinit Hk Hmod Hlarge Hiter Hstep Hchange Hlt.
  unfold LlgEngine.find_ground_state. cbv zeta. rewrite Hinit. cbn [bind].
  apply (relax_loop_first_small_step J D Da tolerance dt_relax
           k max_steps 0 S0 S_old S_new change); auto.
Qed.

(** ** Chains of one site *)

Section OneSite.

Import LlgEngine FieldModel.
Local Open Scope R_scope.

Lemma roll_singleton {A : Type} (k : Z) (x : A) : roll k [x] = [x].
Proof.
  unfold roll. cbn [length]. change (Z.of_nat 1) with 1%Z.
  rewrite Z.mod_1_r. reflexivity.
Qed.

Lemma norm_axis (z : R) : norm (mkV3 0 0 z) = Rabs z.
Proof.
  unfold norm. cbn [vx vy vz].
  replace (0 * 0 + 0 * 0 + z * z) with (Rsqr z) by (unfold Rsqr; ring).
  apply sqrt_Rsqr_abs.
Qed.

Lemma divide_rows_one (v r : V3) (n : R) :
  n <> 0 -> r = vquot v n -> divide_rows [v] [n] = Ok [r].
Proof.
  intros Hn ->. now rewrite divide_rows_nonzero by (constructor; auto).
Qed.

(** One iteration on a chain of one site: the site is its own neighbour
    on both sides. *)
Lemma relax_step_one (J D Da dt_relax : R) (s s1 r : V3) :
  s1 = mkV3 ((1 + 2 * J * dt_relax) * vx s)
            ((1 + 2 * J * dt_relax) * vy s)
            ((1 + 2 * J * dt_relax - 2 * Da * dt_relax) * vz s) ->
  norm s1 <> 0 ->
  r = vquot s1 (norm s1) ->
  relax_step J D Da dt_relax [s] = Ok [r].
Proof.
  intros Hs1 Hn Hr. unfold relax_step.
  rewrite calculate_B_eff_internal. unfold internal_field.
  rewrite !roll_singleton. cbn [map2 map add_external bind].
  match goal with |- divide_rows [?v] _ = _ => replace v with s1 end.
  - now apply divide_rows_one.
  - rewrite Hs1. unfold vadd, vsub, vscale, vadd_scalar; cbn [vx vy vz].
    f_equal; ring.
Qed.

Lemma max_abs_diff_one (a b : V3) :
  max_abs_diff [a] [b]
  = Ok (Rmax (Rmax (Rabs (vx a - vx b)) (Rabs (vy a - vy b))) (Rabs (vz a - vz b))).
Proof. reflexivity. Qed.

End OneSite.

Ltac real_cases :=
  unfold Rabs;
  repeat match goal with
         | |- context [Rcase_abs ?a] => destruct (Rcase_abs a)
         end;
  unfold Rmax;
  repeat match goal with
         | |- context [Rle_dec ?a ?b] => destruct (Rle_dec a b)
         end;
  try lra.

Section OneSiteRuns.

Import LlgEngine FieldModel Scenarios.
Local Open Scope R_scope.

Lemma initial_one (d s r : V3) :
  s = vadd_scalar d (- (5 / 10)) -> norm s <> 0 -> r = vquot s (norm s) ->
  divide_rows (map (fun v => vadd_scalar v (- (5 / 10))) [d])
              (map norm (map (fun v => vadd_scalar v (- (5 / 10))) [d]))
  = Ok [r].
Proof. intros -> Hn Hr. cbn [map]. now apply divide_rows_one. Qed.

Lemma iterate_fixed (J D Da dt_relax : R) (S : chain) (k : nat) :
  relax_step J D Da dt_relax S = Ok S -> iterate J D Da dt_relax k S = Ok S.
Proof.
  intros Hfix. induction k as [|k IH]; [reflexivity|].
  now rewrite (iterate_succ _ _ _ _ _ _ _ Hfix).
Qed.

(** *** The run that keeps reversing *)

Lemma flip_initial :
  divide_rows (map (fun v => vadd_scalar v (- (5 / 10))) flip_draw)
              (map norm (map (fun v => vadd_scalar v (- (5 / 10))) flip_draw))
  = Ok up.
Proof.
  apply (initial_one _ (mkV3 0 0 (1 / 4))).
  - unfold vadd_scalar; cbn [vx vy vz]. f_equal; lra.
  - rewrite norm_axis. real_cases.
  - rewrite norm_axis. replace (Rabs (1 / 4)) with (1 / 4) by real_cases.
    unfold vquot; cbn [vx vy vz]. f_equal; lra.
Qed.

Lemma flip_step (z : R) :
  z = 1 \/ z = -1 ->
  relax_step flip_J 0 0 flip_dt [mkV3 0 0 z] = Ok [mkV3 0 0 (- z)].
Proof.
  intros Hz. apply (relax_step_one _ _ _ _ _ (mkV3 0 0 (- z))).
  - unfold flip_J, flip_dt; cbn [vx vy vz]. f_equal; ring.
  - rewrite norm_axis. destruct Hz; subst; real_cases.
  - rewrite norm_axis.
    replace (Rabs (- z)) with 1 by (destruct Hz; subst; real_cases).
    unfold vquot; cbn [vx vy vz]. f_equal; lra.
Qed.

Lemma flip_change_large (z : R) :
  z = 1 \/ z = -1 ->
  ~ Rmax (Rmax (Rabs (0 - 0)) (Rabs (0 - 0))) (Rabs (- z - z)) < default_tolerance.
Proof.
  intros Hz. unfold default_tolerance. destruct Hz; subst; real_cases.
Qed.

Lemma flip_loop (n step : nat) (z : R) :
  z = 1 \/ z = -1 ->
  relax_loop flip_J 0 0 default_tolerance flip_dt n step [mkV3 0 0 z]
  = Ok [mkV3 0 0 (if Nat.even n then z else - z)].
Proof.
  revert step z. induction n as [|n IH]; intros step z Hz; [reflexivity|].
  rewrite relax_loop_succ, (flip_step z Hz). cbn [bind].
  assert (Hz' : - z = 1 \/ - z = -1) by (destruct Hz; subst; lra).
  assert (Hrec : relax_loop flip_J 0 0 default_tolerance flip_dt n (S step)
                   [mkV3 0 0 (- z)]
                 = Ok [mkV3 0 0 (if Nat.even (S n) then z else - z)]).
  { rewrite (IH (S step) (- z) Hz'). rewrite Nat.even_succ, <- Nat.negb_even.
    destruct (Nat.even n); cbn [negb]; [reflexivity|].
    do 3 f_equal. ring. }
  destruct (Nat.eqb (step mod 500) 0); [|exact Hrec].
  rewrite max_abs_diff_one. cbn [bind vx vy vz].
  destruct (Rlt_dec _ default_tolerance) as [Hlt|_]; [|exact Hrec].
  exfalso. exact (flip_change_large z Hz Hlt).
Qed.

Lemma since_checkpoint_succ (J D Da tolerance dt_relax : R)
    (remaining step : nat) (S_ref S : chain) :
  relax_loop_since_checkpoint J D Da tolerance dt_relax (Datatypes.S remaining) step S_ref S
  = (S1 <- relax_step J D Da dt_relax S ;;
     if Nat.eqb (step mod 500) 0 then
       change <- max_abs_diff S1 S_ref ;;
       if Rlt_dec change tolerance then Ok S1
       else relax_loop_since_checkpoint J D Da tolerance dt_relax
              remaining (Datatypes.S step) S1 S1
     else relax_loop_since_checkpoint J D Da tolerance dt_relax
            remaining (Datatypes.S step) S_ref S1).
Proof. reflexivity. Qed.

(** Between two checkpoints the reference configuration is kept. *)
Lemma flip_between_checkpoints (m r step : nat) (S_ref : chain) (z : R) :
  z = 1 \/ z = -1 ->
  (0 < step)%nat -> (step + m <= 500)%nat ->
  relax_loop_since_checkpoint flip_J 0 0 default_tolerance flip_dt
    (m + r) step S_ref [mkV3 0 0 z]
  = relax_loop_since_checkpoint flip_J 0 0 default_tolerance flip_dt
      r (step + m) S_ref [mkV3 0 0 (if Nat.even m then z else - z)].
Proof.
  revert step z. induction m as [|m IH]; intros step z Hz Hpos Hle.
  - now rewrite Nat.add_0_r.
  - change (Datatypes.S m + r)%nat with (Datatypes.S (m + r)).
    rewrite since_checkpoint_succ, (flip_step z Hz). cbn [bind].
    assert (Hcp : Nat.eqb (step mod 500) 0 = false).
    { apply Nat.eqb_neq. rewrite Nat.mod_small by lia. lia. }
    rewrite Hcp.
    rewrite IH by (try lia; destruct Hz; subst; lra).
    replace (Datatypes.S step + m)%nat with (step + Datatypes.S m)%nat by lia.
    rewrite Nat.even_succ, <- Nat.negb_even.
    destruct (Nat.even m); cbn [negb]; [reflexivity|].
    do 3 f_equal. ring.
Qed.

Lemma flip_run_code :
  find_ground_state flip_draw flip_J 0 0 502 default_tolerance flip_dt = Ok up.
Proof.
  unfold find_ground_state. cbv zeta. rewrite flip_initial. cbn [bind].
  unfold up. rewrite (flip_loop 502 0 1) by (left; reflexivity).
  reflexivity.
Qed.

Lemma flip_run_since_checkpoint :
  find_ground_state_since_checkpoint flip_draw flip_J 0 0 502 default_tolerance flip_dt
  = Ok down.
Proof.
  unfold find_ground_state_since_checkpoint. cbv zeta.
  rewrite flip_initial. cbn [bind]. unfold up.
  rewrite since_checkpoint_succ, (flip_step 1) by (left; reflexivity).
  cbn [bind]. change (Nat.eqb (0 mod 500) 0) with true. cbv iota.
  rewrite max_abs_diff_one. cbn [bind vx vy vz].
  destruct (Rlt_dec _ default_tolerance) as [Hlt|_].
  { exfalso. exact (flip_change_large 1 (or_introl eq_refl) Hlt). }
  change 501%nat with (499 + 2)%nat.
  rewrite (flip_between_checkpoints 499 2 1) by (try lia; right; reflexivity).
  change (Nat.even 499) with false. cbv iota.
  change (1 + 499)%nat with 500%nat.
  rewrite since_checkpoint_succ.
  replace (Ropp (Ropp 1)) with 1 by ring.
  rewrite (flip_step 1) by (left; reflexivity). cbn [bind].
  change (Nat.eqb (500 mod 500) 0) with true. cbv iota.
  rewrite max_abs_diff_one. cbn [bind vx vy vz].
  destruct (Rlt_dec _ default_tolerance) as [_|Hge].
  { unfold down. repeat f_equal; lra. }
  exfalso. apply Hge. unfold default_tolerance. real_cases.
Qed.

End OneSiteRuns.

Section SettlingRun.

Import LlgEngine FieldModel Scenarios.
Local Open Scope R_scope.

Lemma settle_initial :
  divide_rows (map (fun v => vadd_scalar v (- (5 / 10))) settle_draw)
              (map norm (map (fun v => vadd_scalar v (- (5 / 10))) settle_draw))
  = Ok settle_start.
Proof.
  assert (Hn : norm (mkV3 (3 / 10) 0 (4 / 10)) = 1 / 2).
  { unfold norm; cbn [vx vy vz].
    replace (3 / 10 * (3 / 10) + 0 * 0 + 4 / 10 * (4 / 10)) with (1 / 2 * (1 / 2)) by lra.
    apply sqrt_square. lra. }
  apply (initial_one _ (mkV3 (3 / 10) 0 (4 / 10))).
  - unfold vadd_scalar; cbn [vx vy vz]. f_equal; lra.
  - rewrite Hn. lra.
  - rewrite Hn. unfold vquot; cbn [vx vy vz]. f_equal; lra.
Qed.

Lemma settle_first :
  relax_step settle_J 0 settle_Da settle_dt settle_start = Ok up.
Proof.
  apply (relax_step_one _ _ _ _ _ (mkV3 0 0 (4 / 5))).
  - unfold settle_J, settle_Da, settle_dt; cbn [vx vy vz]. f_equal; lra.
  - rewrite norm_axis. real_cases.
  - rewrite norm_axis. replace (Rabs (4 / 5)) with (4 / 5) by real_cases.
    unfold vquot; cbn [vx vy vz]. f_equal; lra.
Qed.

Lemma settle_fixed :
  relax_step settle_J 0 settle_Da settle_dt up = Ok up.
Proof.
  apply (relax_step_one _ _ _ _ _ (mkV3 0 0 1)).
  - unfold settle_J, settle_Da, settle_dt; cbn [vx vy vz]. f_equal; lra.
  - rewrite norm_axis. real_cases.
  - rewrite norm_axis. replace (Rabs 1) with 1 by real_cases.
    unfold vquot; cbn [vx vy vz]. f_equal; lra.
Qed.

Lemma settle_large_first_step :
  forall j, (j < 500)%nat -> (j mod 500 = 0)%nat ->
    large_step settle_J 0 settle_Da default_tolerance settle_dt j settle_start.
Proof.
  intros j Hj Hmod. rewrite Nat.mod_small in Hmod by exact Hj. subst j.
  exists settle_start, up.
  eexists. split; [reflexivity|]. split; [exact settle_first|].
  split; [apply max_abs_diff_one|].
  cbn [vx vy vz]. unfold default_tolerance. real_cases.
Qed.

Lemma settle_small_step_500 :
  Rmax (Rmax (Rabs (0 - 0)) (Rabs (0 - 0))) (Rabs (1 - 1)) < default_tolerance.
Proof. unfold default_tolerance. real_cases. Qed.

End SettlingRun.

Lemma find_ground_state_stops_on_small_checkpoint_step_witness :
  LlgEngine.find_ground_state Scenarios.settle_draw
    Scenarios.settle_J 0 Scenarios.settle_Da
    LlgEngine.default_max_steps LlgEngine.default_tolerance Scenarios.settle_dt
  = Ok Scenarios.up.
Proof.
  apply (find_ground_state_stops_on_small_checkpoint_step
           Scenarios.settle_J 0 Scenarios.settle_Da LlgEngine.default_tolerance
           Scenarios.settle_dt Scenarios.settle_draw LlgEngine.default_max_steps
           Scenarios.settle_start Scenarios.up Scenarios.up 500
           (Rmax (Rmax (Rabs (0 - 0)) (Rabs (0 - 0))) (Rabs (1 - 1)))).
  - exact settle_initial.
  - apply Nat.ltb_lt. vm_compute. reflexivity.
  - vm_compute. reflexivity.
  - exact settle_large_first_step.
  - rewrite (iterate_succ _ _ _ _ _ _ _ settle_first).
    apply iterate_fixed. exact settle_fixed.
  - exact settle_fixed.
  - apply max_abs_diff_one.
  - exact settle_small_step_500.
Defined.

(** C3, as stated, fails on the run that keeps reversing: over 502
    iterations every iteration changes the third component by 2, so the
    code never stops early and returns the configuration after iteration
    501, while the configuration at checkpoint 500 equals the one kept
    from checkpoint 0, so a test on the change since the last checkpoint
    stops there. *)
Lemma find_ground_state_not_since_checkpoint :
  LlgEngine.find_ground_state Scenarios.flip_draw Scenarios.flip_J 0 0 502
    LlgEngine.default_tolerance Scenarios.flip_dt = Ok Scenarios.up
  /\ LlgEngine.find_ground_state_since_checkpoint Scenarios.flip_draw
       Scenarios.flip_J 0 0 502 LlgEngine.default_tolerance Scenarios.flip_dt
     = Ok Scenarios.down
  /\ LlgEngine.find_ground_state Scenarios.flip_draw Scenarios.flip_J 0 0 502
       LlgEngine.default_tolerance Scenarios.flip_dt
     <> LlgEngine.find_ground_state_since_checkpoint Scenarios.flip_draw
          Scenarios.flip_J 0 0 502 LlgEngine.default_tolerance Scenarios.flip_dt.
Proof.
  rewrite flip_run_code, flip_run_since_checkpoint.
  split; [reflexivity|]. split; [reflexivity|].
  unfold Scenarios.up, Scenarios.down. intros E. injection E. lra.
Qed.

(** ** Soliton kinematics *)

Section Tracking.

Import Kinematics.
Local Open Scope nat_scope.

Lemma chunks_flat_map {X : Type} (f : X -> list Q) (size : nat) (l : list X) :
  (forall x, length (f x) = size) ->
  chunks (length l) size (flat_map f l) = map f l.
Proof.
  intros Hf. induction l as [|x l IH]; [reflexivity|].
  cbn [length flat_map chunks map].
  rewrite firstn_app, skipn_app, (Hf x), Nat.sub_diag.
  rewrite firstn_all2 by (rewrite Hf; lia).
  rewrite skipn_all2 by (rewrite Hf; lia).
  cbn [firstn skipn app]. rewrite app_nil_r, IH. reflexivity.
Qed.

Lemma length_flat_map_const {X : Type} (f : X -> list Q) (size : nat) (l : list X) :
  (forall x, length (f x) = size) ->
  length (flat_map f l) = length l * size.
Proof.
  intros Hf. induction l as [|x l IH]; [reflexivity|].
  cbn [flat_map length]. rewrite length_app, Hf, IH. lia.
Qed.

(** On a well-formed run the reshaping succeeds, and row [t] of
    [sz_history] holds the z components of the N sites at sample [t]. *)
Lemma sz_history_of_well_formed (data : npz) (N T : nat) :
  well_formed data N T ->
  sz_history_of (S_history data)
  = Ok (map (fun t => map (z_component data t) (seq 0 N)) (seq 0 T)).
Proof.
  intros (HN & Hrows & Hcols & _).
  set (rows := S_history data) in *.
  assert (Hdiv : length rows / 3 = N)
    by (rewrite Hrows, Nat.mul_comm; apply Nat.div_mul; lia).
  assert (Hncols : ncols rows = T).
  { destruct rows as [|r rows']; [simpl in Hrows; lia|].
    inversion Hcols; subst. reflexivity. }
  set (f := fun t : nat => map (fun row : list Q => nth t row 0%Q) rows).
  assert (Hf : forall t, length (f t) = 3 * N)
    by (intros t; unfold f; now rewrite length_map).
  assert (Hflat : transposed rows = flat_map f (seq 0 T))
    by (unfold transposed; now rewrite Hncols).
  assert (Hlen : length (transposed rows) = T * (3 * N)).
  { rewrite Hflat, (length_flat_map_const f (3 * N)) by exact Hf.
    now rewrite length_seq. }
  unfold sz_history_of. fold rows. rewrite Hdiv.
  destruct (Nat.eqb_spec N 0) as [E|_]; [lia|].
  rewrite Hlen, Nat.Div0.mod_mul, Nat.eqb_refl. cbn [negb].
  rewrite Nat.div_mul by lia.
  f_equal. rewrite Hflat.
  rewrite <- (length_seq T 0) at 1.
  rewrite (chunks_flat_map f (3 * N)) by exact Hf.
  rewrite map_map. apply map_ext. intros t.
  apply map_ext_in. intros i Hi. apply in_seq in Hi.
  unfold f, z_component. fold rows.
  rewrite (nth_map_lt _ _ _ []) by lia. reflexivity.
Qed.

Lemma where_negative_filter (row : list Q) (k : nat) :
  where_negative k row
  = filter (fun i => Qlt_bool (nth (i - k) row 0%Q) 0) (seq k (length row)).
Proof.
  revert k. induction row as [|z row IH]; intros k; [reflexivity|].
  cbn [where_negative length seq filter].
  rewrite Nat.sub_diag. cbn [nth].
  rewrite IH.
  assert (Hext : filter (fun i => Qlt_bool (nth (i - S k) row 0%Q) 0) (seq (S k) (length row))
                 = filter (fun i => Qlt_bool (nth (i - k) (z :: row) 0%Q) 0)
                          (seq (S k) (length row))).
  { apply filter_ext_in. intros i Hi. apply in_seq in Hi.
    replace (i - k) with (S (i - S k)) by lia. reflexivity. }
  rewrite Hext. reflexivity.
Qed.

Lemma where_negative_core (data : npz) (N t : nat) :
  where_negative 0 (map (z_component data t) (seq 0 N)) = core data N t.
Proof.
  rewrite where_negative_filter, length_map, length_seq.
  unfold core. apply filter_ext_in. intros i Hi. apply in_seq in Hi.
  rewrite Nat.sub_0_r.
  rewrite (nth_map_lt _ _ _ 0) by (rewrite length_seq; lia).
  rewrite seq_nth by lia. reflexivity.
Qed.

Lemma index_lt {X : Type} (a : list X) (i : nat) (d : X) :
  i < length a -> index a i = Ok (nth i a d).
Proof.
  intros Hi. unfold index. now rewrite (nth_error_nth' a d Hi).
Qed.

(** The tracking loop on [sz_history] whose row [t] is [row t]: the
    samples kept are those with a non-empty core, in order. *)
Lemma track_kept (row : nat -> list Q) (T : nat) (times : list Q) (k : nat) :
  k + length times <= T ->
  let kept := filter (fun t => Nat.ltb 0 (length (where_negative 0 (row t))))
                     (seq k (length times)) in
  track (map row (seq 0 T)) k times
  = Ok (map (fun t => np_mean (where_negative 0 (row t))) kept,
        map (fun t => nth (t - k) times 0%Q) kept).
Proof.
  revert k. induction times as [|t0 times IH]; intros k Hk; [reflexivity|].
  cbn [length] in Hk. cbv zeta.
  cbn [track length seq filter].
  rewrite (index_lt _ _ []) by (rewrite length_map, length_seq; lia).
  rewrite (nth_map_lt _ _ _ 0) by (rewrite length_seq; lia).
  rewrite seq_nth by lia. cbn [Nat.add bind].
  rewrite (IH (S k)) by lia. cbn [bind fst snd].
  set (kept := filter _ (seq (S k) (length times))).
  assert (Hext : map (fun t => nth (t - S k) times 0%Q) kept
                 = map (fun t => nth (t - k) (t0 :: times) 0%Q) kept).
  { apply map_ext_in. intros j Hj. apply filter_In in Hj as [Hj _].
    apply in_seq in Hj. replace (j - k) with (S (j - S k)) by lia. reflexivity. }
  rewrite Hext.
  destruct (Nat.ltb 0 (length (where_negative 0 (row k)))); cbn [map];
    rewrite ?Nat.sub_diag; reflexivity.
Qed.

End Tracking.

Section Velocity.

Import Kinematics.
Local Open Scope nat_scope.

Lemma Qlt_bool_iff (a b : Q) : Qlt_bool a b = true <-> (a < b)%Q.
Proof.
  unfold Qlt_bool. rewrite negb_true_iff, <- not_true_iff_false, Qle_bool_iff.
  split; [apply Qnot_le_lt | apply Qlt_not_le].
Qed.

Lemma in_core (data : npz) (N t i : nat) :
  In i (core data N t) <-> i < N /\ (z_component data t i < 0)%Q.
Proof.
  unfold core. rewrite filter_In, in_seq, Qlt_bool_iff. intuition lia.
Qed.

Lemma track_well_formed (data : npz) (N T : nat) :
  well_formed data N T ->
  track (map (fun t => map (z_component data t) (seq 0 N)) (seq 0 T))
        0 (time_points data)
  = Ok (tracked_positions data N T, tracked_times data N T).
Proof.
  intros (_ & _ & _ & Htimes).
  rewrite (track_kept (fun t => map (z_component data t) (seq 0 N)) T)
    by (rewrite Htimes; lia).
  cbv zeta. rewrite Htimes.
  assert (Hkept : filter (fun t => Nat.ltb 0 (length (where_negative 0
                            (map (z_component data t) (seq 0 N))))) (seq 0 T)
                  = samples_with_soliton data N T).
  { unfold samples_with_soliton. apply filter_ext. intros t.
    rewrite where_negative_core. unfold has_core.
    now destruct (core data N t). }
  rewrite Hkept. unfold tracked_positions, tracked_times. f_equal. f_equal.
  - apply map_ext. intros t. now rewrite where_negative_core.
  - apply map_ext. intros t. now rewrite Nat.sub_0_r.
Qed.

Variable curve_fit : (Q -> Q -> Q -> Q) -> list Q -> list Q -> result (pyfloat * pyfloat).

(** The shared body on a well-formed run, after the tracking loop. *)
Lemma soliton_velocity_well_formed (data : npz) (N T : nat) :
  well_formed data N T ->
  soliton_velocity curve_fit data
  = match tracked_times data N T with
    | [] => Ok NaN
    | _ :: _ =>
        let mask := fit_mask (tracked_times data N T) in
        if Nat.ltb (np_sum mask) 2 then Ok NaN
        else velocity_of_fit
               (curve_fit linear_func
                  (select mask (tracked_times data N T))
                  (select mask (tracked_positions data N T)))
    end.
Proof.
  intros Hwf. unfold soliton_velocity.
  rewrite (sz_history_of_well_formed data N T Hwf). cbn [bind].
  rewrite (track_well_formed data N T Hwf). cbn [bind fst snd].
  reflexivity.
Qed.

End Velocity.

(** C4.  On every well-formed run the tracking computes, at each sampled
    time, the sites whose z component is below zero; it keeps, in order,
    exactly the sampled times whose core is not empty, each with the mean
    of its core indices, and drops the others; it raises nothing, and when
    no sampled time has a core the velocity is the missing value [NaN]. *)
Theorem core_tracking_samples :
  forall (data : Kinematics.npz) (N T : nat),
    Kinematics.well_formed data N T ->
    exists sz_history,
      Kinematics.sz_history_of (Kinematics.S_history data) = Ok sz_history /\
      (forall t, (t < T)%nat ->
         Kinematics.where_negative 0 (nth t sz_history []) = Kinematics.core data N t) /\
      (forall t i, In i (Kinematics.core data N t)
                   <-> (i < N)%nat /\ (Kinematics.z_component data t i < 0)%Q) /\
      Kinematics.track sz_history 0 (Kinematics.time_points data)
      = Ok (map (fun t => Kinematics.np_mean (Kinematics.core data N t))
                (Kinematics.samples_with_soliton data N T),
            map (fun t => nth t (Kinematics.time_points data) 0%Q)
                (Kinematics.samples_with_soliton data N T)) /\
      (forall t, In t (Kinematics.samples_with_soliton data N T)
                 <-> (t < T)%nat /\ Kinematics.core data N t <> []) /\
      (Kinematics.samples_with_soliton data N T = [] ->
       forall curve_fit Filename np_load filename,
         Kinematics.soliton_velocity curve_fit data = Ok Kinematics.NaN /\
         Kinematics.velocities_entry curve_fit data = Ok Kinematics.NaN /\
         (np_load filename = Ok data ->
          Kinematics.calculate_velocity Filename np_load curve_fit filename
          = Ok Kinematics.NaN)).
Proof.
  intros data N T Hwf.
  eexists. split; [exact (sz_history_of_well_formed data N T Hwf)|].
  split; [|split; [|split; [|split]]].
  - intros t Ht.
    rewrite (nth_map_lt _ _ _ 0%nat) by (rewrite length_seq; exact Ht).
    rewrite seq_nth by exact Ht. apply where_negative_core.
  - intros t i. exact (in_core data N t i).
  - exact (track_well_formed data N T Hwf).
  - intros t. unfold Kinematics.samples_with_soliton, Kinematics.has_core.
    rewrite filter_In, in_seq.
    destruct (Kinematics.core data N t); split; intros [H1 H2];
      (split; [lia|]); congruence.
  - intros Hnone curve_fit Filename np_load filename.
    assert (Hv : Kinematics.soliton_velocity curve_fit data = Ok Kinematics.NaN).
    { rewrite (soliton_velocity_well_formed curve_fit data N T Hwf).
      unfold Kinematics.tracked_times. now rewrite Hnone. }
    split; [exact Hv|]. split; [exact Hv|].
    intros Hload. unfold Kinematics.calculate_velocity. now rewrite Hload.
Qed.

Section FitWindow.

Import Kinematics.
Local Open Scope nat_scope.

Lemma fit_mask_sum (times : list Q) :
  np_sum (fit_mask times) = length (filter in_open_window times).
Proof.
  unfold np_sum.
  induction times as [|t times IH]; [reflexivity|].
  cbn [fit_mask map filter]. fold (fit_mask times). fold (in_open_window t).
  destruct (in_open_window t); cbn [length]; now rewrite IH.
Qed.

Lemma fit_mask_select_pairs (times positions : list Q) :
  length positions = length times ->
  select (fit_mask times) times
  = map fst (filter (fun p => in_open_window (fst p)) (combine times positions))
  /\ select (fit_mask times) positions
     = map snd (filter (fun p => in_open_window (fst p)) (combine times positions)).
Proof.
  revert positions. induction times as [|t times IH]; intros [|x positions] Hlen;
    try discriminate; [split; reflexivity|].
  destruct (IH positions ltac:(simpl in Hlen; lia)) as [IHt IHp].
  cbn [fit_mask map select combine filter fst].
  fold (fit_mask times). fold (in_open_window t).
  destruct (in_open_window t); cbn [map fst snd]; rewrite IHt, IHp; split; reflexivity.
Qed.

Lemma filter_fst_combine (f : Q -> bool) (times positions : list Q) :
  length positions = length times ->
  length (filter (fun p => f (fst p)) (combine times positions))
  = length (filter f times).
Proof.
  revert positions. induction times as [|t times IH]; intros [|x positions] Hlen;
    try discriminate; [reflexivity|].
  cbn [combine filter fst].
  destruct (f t); cbn [length]; rewrite IH by (simpl in Hlen; lia); reflexivity.
Qed.

Lemma filter_length_le {X : Type} (f g : X -> bool) (l : list X) :
  (forall x, f x = true -> g x = true) ->
  length (filter f l) <= length (filter g l).
Proof.
  intros Hfg. induction l as [|x l IH]; [reflexivity|].
  cbn [filter]. destruct (f x) eqn:Hf.
  - rewrite (Hfg x Hf). cbn [length]. lia.
  - destruct (g x); cbn [length]; lia.
Qed.

Lemma open_window_closed (t : Q) :
  in_open_window t = true -> in_closed_window t = true.
Proof.
  unfold in_open_window, in_closed_window.
  rewrite !andb_true_iff, !Qlt_bool_iff, !Qle_bool_iff.
  intros [H1 H2]. split; apply Qlt_le_weak; assumption.
Qed.

Lemma length_tracked (data : npz) (N T : nat) :
  length (tracked_positions data N T) = length (tracked_times data N T).
Proof. unfold tracked_positions, tracked_times. now rewrite !length_map. Qed.

Variable curve_fit : (Q -> Q -> Q -> Q) -> list Q -> list Q -> result (pyfloat * pyfloat).

Lemma soliton_velocity_few_samples (data : npz) (N T : nat) :
  well_formed data N T ->
  length (filter in_open_window (tracked_times data N T)) < 2 ->
  soliton_velocity curve_fit data = Ok NaN.
Proof.
  intros Hwf Hfew.
  rewrite (soliton_velocity_well_formed curve_fit data N T Hwf).
  destruct (tracked_times data N T) as [|t times] eqn:Ht; [reflexivity|].
  cbv zeta. rewrite fit_mask_sum.
  apply Nat.ltb_lt in Hfew. now rewrite Hfew.
Qed.

Lemma soliton_velocity_fit (data : npz) (N T : nat) :
  well_formed data N T ->
  2 <= length (samples_in_open_window data N T) ->
  soliton_velocity curve_fit data
  = velocity_of_fit
      (curve_fit linear_func
         (map fst (samples_in_open_window data N T))
         (map snd (samples_in_open_window data N T))).
Proof.
  intros Hwf Hmany.
  unfold samples_in_open_window, tracked_samples in *.
  rewrite (filter_fst_combine in_open_window) in Hmany by apply length_tracked.
  rewrite (soliton_velocity_well_formed curve_fit data N T Hwf).
  destruct (fit_mask_select_pairs (tracked_times data N T) (tracked_positions data N T)
              (length_tracked data N T)) as [Ht Hp].
  destruct (tracked_times data N T) as [|t times] eqn:Htimes; [simpl in Hmany; lia|].
  cbv zeta. rewrite fit_mask_sum.
  apply Nat.ltb_ge in Hmany. rewrite Hmany.
  now rewrite Ht, Hp.
Qed.

End FitWindow.

(** C5 (amended).  The fit uses the tracked samples whose times lie
    strictly between T_START_FIT and T_END_FIT: when at least two tracked
    samples satisfy T_START_FIT < t < T_END_FIT, exactly these samples, in
    order, are handed to the least-squares line fit, and the velocity is
    what the fit makes of them. *)
Theorem fit_uses_open_window :
  forall (curve_fit : (Q -> Q -> Q -> Q) -> list Q -> list Q
                      -> result (Kinematics.pyfloat * Kinematics.pyfloat))
         (data : Kinematics.npz) (N T : nat),
    Kinematics.well_formed data N T ->
    (2 <= length (Kinematics.samples_in_open_window data N T))%nat ->
    let used := Kinematics.samples_in_open_window data N T in
    Kinematics.soliton_velocity curve_fit data
    = Kinematics.velocity_of_fit
        (curve_fit Kinematics.linear_func (map fst used) (map snd used)) /\
    Kinematics.velocities_entry curve_fit data
    = Kinematics.velocity_of_fit
        (curve_fit Kinematics.linear_func (map fst used) (map snd used)) /\
    forall p, In p used <->
              In p (Kinematics.tracked_samples data N T) /\
              (Kinematics.T_START_FIT < fst p)%Q /\ (fst p < Kinematics.T_END_FIT)%Q.
Proof.
  intros curve_fit data N T Hwf Hmany used.
  pose proof (soliton_velocity_fit curve_fit data N T Hwf Hmany) as Hfit.
  split; [exact Hfit|]. split; [exact Hfit|].
  intros p. unfold used, Kinematics.samples_in_open_window.
  rewrite filter_In. unfold Kinematics.in_open_window.
  rewrite andb_true_iff, !Qlt_bool_iff. reflexivity.
Qed.

Lemma fit_uses_open_window_witness :
  Kinematics.soliton_velocity Kinematics.line_through_first_two Kinematics.two_site_run
  = Kinematics.velocity_of_fit
      (Kinematics.line_through_first_two Kinematics.linear_func
         (map fst (Kinematics.samples_in_open_window Kinematics.two_site_run 2 3))
         (map snd (Kinematics.samples_in_open_window Kinematics.two_site_run 2 3))).
Proof.
  destruct (fit_uses_open_window Kinematics.line_through_first_two
              Kinematics.two_site_run 2 3) as (Hv & _).
  - split; [lia|]. split; [reflexivity|]. split; [repeat constructor | reflexivity].
  - vm_compute. lia.
  - exact Hv.
Defined.

(** C5, as stated, fails on a run sampled at 30, 60, 90 and 150: the four
    tracked samples lie in [T_START_FIT, T_END_FIT], and the fit is given
    the two at 60 and 90 only. *)
Lemma fit_window_excludes_its_ends :
  Kinematics.samples_in_closed_window Kinematics.boundary_run 1 4
  = [(30, 0); (60, 0); (90, 0); (150, 0)]%Q
  /\ Kinematics.samples_in_open_window Kinematics.boundary_run 1 4
     = [(60, 0); (90, 0)]%Q
  /\ forall curve_fit,
       Kinematics.soliton_velocity curve_fit Kinematics.boundary_run
       = Kinematics.velocity_of_fit
           (curve_fit Kinematics.linear_func [60; 90]%Q [0; 0]%Q).
Proof.
  split; [reflexivity|]. split; [reflexivity|].
  intros curve_fit. reflexivity.
Qed.

(** C8.  On a well-formed run with fewer than two tracked samples in the
    fit window (the window taken with or without its end points), the
    velocity is the missing value [NaN], which no number equals: nothing is
    raised and the fitter is not consulted. *)
Theorem no_velocity_below_two_samples :
  forall (curve_fit : (Q -> Q -> Q -> Q) -> list Q -> list Q
                      -> result (Kinematics.pyfloat * Kinematics.pyfloat))
         (Filename : Type) (np_load : Filename -> result Kinematics.npz)
         (filename : Filename) (data : Kinematics.npz) (N T : nat),
    Kinematics.well_formed data N T ->
    (length (Kinematics.samples_in_closed_window data N T) < 2)%nat
    \/ (length (Kinematics.samples_in_open_window data N T) < 2)%nat ->
    Kinematics.soliton_velocity curve_fit data = Ok Kinematics.NaN /\
    Kinematics.velocities_entry curve_fit data = Ok Kinematics.NaN /\
    (np_load filename = Ok data ->
     Kinematics.calculate_velocity Filename np_load curve_fit filename
     = Ok Kinematics.NaN) /\
    forall v, Kinematics.NaN <> Kinematics.Num v.
Proof.
  intros curve_fit Filename np_load filename data N T Hwf Hfew.
  assert (Hopen : (length (filter Kinematics.in_open_window
                             (Kinematics.tracked_times data N T)) < 2)%nat).
  { unfold Kinematics.samples_in_closed_window, Kinematics.samples_in_open_window,
      Kinematics.tracked_samples in Hfew.
    rewrite !filter_fst_combine in Hfew by apply length_tracked.
    pose proof (filter_length_le Kinematics.in_open_window Kinematics.in_closed_window
                  (Kinematics.tracked_times data N T) open_window_closed).
    lia. }
  pose proof (soliton_velocity_few_samples curve_fit data N T Hwf Hopen) as Hv.
  split; [exact Hv|]. split; [exact Hv|]. split.
  - intros Hload. unfold Kinematics.calculate_velocity. now rewrite Hload.
  - discriminate.
Qed.

Lemma no_velocity_below_two_samples_witness :
  Kinematics.soliton_velocity Kinematics.line_through_first_two
    Kinematics.single_sample_run
  = Ok Kinematics.NaN.
Proof.
  destruct (no_velocity_below_two_samples Kinematics.line_through_first_two unit
              (fun _ => Ok Kinematics.single_sample_run) tt
              Kinematics.single_sample_run 1 1) as (Hv & _).
  - split; [lia|]. split; [reflexivity|]. split; [repeat constructor | reflexivity].
  - left. vm_compute. lia.
  - exact Hv.
Defined.

Lemma core_tracking_samples_witness :
  exists sz_history,
    Kinematics.sz_history_of (Kinematics.S_history Kinematics.two_site_run)
    = Ok sz_history /\
    Kinematics.track sz_history 0 (Kinematics.time_points Kinematics.two_site_run)
    = Ok (map (fun t => Kinematics.np_mean (Kinematics.core Kinematics.two_site_run 2 t))
              (Kinematics.samples_with_soliton Kinematics.two_site_run 2 3),
          map (fun t => nth t (Kinematics.time_points Kinematics.two_site_run) 0%Q)
              (Kinematics.samples_with_soliton Kinematics.two_site_run 2 3)).
Proof.
  destruct (core_tracking_samples Kinematics.two_site_run 2 3)
    as (sz & Hsz & _ & _ & Htrack & _).
  - split; [lia|]. split; [reflexivity|]. split; [repeat constructor | reflexivity].
  - exists sz. split; assumption.
Defined.

Lemma calculate_B_eff_sum_of_terms_witness :
  exists B_eff,
    LlgEngine.calculate_B_eff Scenarios.pair_S 1 (1 / 4) (- (1 / 10))
      (LlgEngine.Sites Scenarios.pair_H) = Ok B_eff /\
    length B_eff = 2%nat.
Proof.
  destruct (calculate_B_eff_sum_of_terms Scenarios.pair_S Scenarios.pair_H
              1 (1 / 4) (- (1 / 10)) eq_refl) as (B & HB & Hlen & _).
  exists B. split; assumption.
Defined.

Lemma calculate_B_eff_translation_invariant_witness :
  exists B_eff,
    LlgEngine.calculate_B_eff Scenarios.pair_S 1 (1 / 4) (- (1 / 10))
      (LlgEngine.Sites Scenarios.pair_H) = Ok B_eff /\
    LlgEngine.calculate_B_eff (roll (-3) Scenarios.pair_S) 1 (1 / 4) (- (1 / 10))
      (LlgEngine.Sites (roll (-3) Scenarios.pair_H)) = Ok (roll (-3) B_eff).
Proof.
  apply (calculate_B_eff_translation_invariant Scenarios.pair_S Scenarios.pair_H
           1 (1 / 4) (- (1 / 10)) (-3)%Z).
  reflexivity.
Defined.


Lemma llg_rhs_renormalization_safe_witness :
  (exists S dSdt,
     LlgEngine.llg_rhs unit 0 Scenarios.degenerate_state 2
       1 (1 / 4) (- (1 / 10)) (1 / 20) 1 None None = (LlgEngine.flatten S, Ok dSdt) /\
     length dSdt = 6%nat /\
     nth 0 S LlgEngine.zero3 = LlgEngine.mkV3 1 0 0 /\
     nth 1 S LlgEngine.zero3 = LlgEngine.mkV3 0 0 0) /\
  (exists Sd',
     Doubles.renormalize Doubles.sharp_state = Ok Sd' /\ length Sd' = 3%nat).
Proof.
  destruct (llg_rhs_renormalization_safe unit 0 Scenarios.degenerate_state 2
              1 (1 / 4) (- (1 / 10)) (1 / 20) 1 None None (LlgEngine.Scalar 0)
              eq_refl eq_refl I)
    as ((S & B & _ & _ & _ & Hrhs & Hlen & Hsites) & Hd).
  split.
  - exists S. eexists. split; [exact Hrhs|]. split; [exact Hlen|].
    assert (Hn0 : LlgEngine.norm (FieldModel.row_of Scenarios.degenerate_state 0) = 2%R).
    { unfold LlgEngine.norm, FieldModel.row_of. simpl.
      replace (2 * 2 + 0 * 0 + 0 * 0)%R with (2 * 2)%R by ring.
      apply sqrt_square. lra. }
    assert (Hn1 : LlgEngine.norm (FieldModel.row_of Scenarios.degenerate_state 1) = 0%R).
    { unfold LlgEngine.norm, FieldModel.row_of. simpl.
      replace (0 * 0 + 0 * 0 + 0 * 0)%R with 0%R by ring.
      apply sqrt_0. }
    split.
    + destruct (Hsites 0%nat) as (_ & _ & H0); [lia|].
      destruct H0 as [H0 _]; [rewrite Hn0; lra|].
      rewrite H0, Hn0. unfold FieldModel.vquot, FieldModel.row_of. simpl.
      f_equal; field.
    + destruct (Hsites 1%nat) as (_ & H1 & _); [lia|].
      rewrite (H1 Hn1). reflexivity.
  - destruct (Hd Doubles.sharp_state) as (Sd' & HS & HL & _).
    exists Sd'. split; assumption.
Defined.

(** C9, as stated, fails on doubles.  The specification has every site
    of non-zero norm rescaled to unit norm.  On doubles the
    renormalization turns the spin (2^700, 0, 0), whose squared norm
    overflows, into the zero vector; it skips the non-zero spin
    (2^-700, 0, 0), whose squared norm underflows to 0; and it leaves the
    spin (1, 1, 0) with a computed norm next below 1.  None of the three
    sites is the zero vector, none ends with norm 1. *)
Lemma llg_rhs_renormalization_not_unit_on_doubles :
  Doubles.renormalize Doubles.sharp_state
  = Ok [Doubles.mkD3 Doubles.zero Doubles.zero Doubles.zero;
        Doubles.mkD3 Doubles.tiny Doubles.zero Doubles.zero;
        Doubles.mkD3 Doubles.half_sqrt2 Doubles.half_sqrt2 Doubles.zero]
  /\ map (fun v => PrimFloat.eqb (Doubles.dx v) Doubles.zero) Doubles.sharp_state
     = [false; false; false]
  /\ Doubles.norm (Doubles.mkD3 Doubles.zero Doubles.zero Doubles.zero) = Doubles.zero
  /\ Doubles.norm (Doubles.mkD3 Doubles.tiny Doubles.zero Doubles.zero) = Doubles.zero
  /\ Doubles.norm (Doubles.mkD3 Doubles.half_sqrt2 Doubles.half_sqrt2 Doubles.zero)
     = Doubles.below_one
  /\ PrimFloat.eqb Doubles.zero Doubles.one = false
  /\ PrimFloat.eqb Doubles.below_one Doubles.one = false.
Proof. repeat split; vm_compute; reflexivity. Qed.

Lemma llg_rhs_orthogonal_to_spin_witness :
  exists dSdt,
    snd (LlgEngine.llg_rhs unit 0 Scenarios.pair_state 2
           1 (1 / 4) (- (1 / 10)) (1 / 20) 1 None None) = Ok dSdt /\
    length dSdt = 6%nat /\
    FieldModel.row_of dSdt 0 = LlgEngine.mkV3 0 (1 / 10) (-2) /\
    LlgEngine.dot (FieldModel.row_of dSdt 0)
                  (FieldModel.row_of Scenarios.pair_state 0) = 0%R.
Proof.
  destruct (llg_rhs_orthogonal_to_spin unit 0 Scenarios.pair_state 2
              1 (1 / 4) (- (1 / 10)) (1 / 20) 1 None None (LlgEngine.Scalar 0)
              eq_refl eq_refl I)
    as (S & B & dSdt & HS & _ & HB & Hrhs & Hlen & Hrows).
  exists dSdt. split; [now rewrite Hrhs|]. split; [exact Hlen|].
  destruct (Hrows 0%nat) as (Hrow & _ & Horth); [lia|].
  split; [|exact Horth].
  rewrite reshape_ok in HS by reflexivity. cbn [bind] in HS.
  rewrite renormalize_total in HS. injection HS as HS.
  assert (Hx : LlgEngine.norm (LlgEngine.mkV3 1 0 0) = 1%R).
  { unfold LlgEngine.norm. simpl.
    replace (1 * 1 + 0 * 0 + 0 * 0)%R with 1%R by ring. apply sqrt_1. }
  assert (Hy : LlgEngine.norm (LlgEngine.mkV3 0 1 0) = 1%R).
  { unfold LlgEngine.norm. simpl.
    replace (0 * 0 + 1 * 1 + 0 * 0)%R with 1%R by ring. apply sqrt_1. }
  assert (HSv : S = Scenarios.pair_S).
  { rewrite <- HS. unfold FieldModel.renormalized, LlgEngine.fix_zero_norms.
    simpl. rewrite Hx, Hy. destruct (Req_dec_T 1 0) as [E|_]; [lra|].
    now rewrite !vquot_one. }
  clear HS. subst S. unfold LlgEngine.calculate_B_eff, roll in HB. simpl in HB.
  injection HB as HB. subst B. rewrite Hrow.
  unfold FieldModel.precession_law, LlgEngine.vsub, LlgEngine.vscale,
    LlgEngine.vadd, LlgEngine.vadd_scalar, LlgEngine.cross. simpl.
  f_equal; field.
Defined.


(** * Further properties of the code *)

(** ** The effective field: scalar and single-row fields, shape errors *)

Section FieldShapes.

Import LlgEngine FieldModel.
Local Open Scope R_scope.

Variables (J D Da : R).

Lemma calculate_B_eff_scalar (S : chain) (c : R) :
  calculate_B_eff S J D Da (Scalar c)
  = Ok (map (fun x => vadd_scalar x c) (internal_field J D Da S)).
Proof. reflexivity. Qed.

Lemma site_combination (a b : R) (S1 S2 : chain) (z : Z) :
  length S1 = length S2 -> (0 < length S1)%nat ->
  site (Configurations.combination a S1 b S2) z
  = vadd (vscale a (site S1 z)) (vscale b (site S2 z)).
Proof.
  intros Hlen Hpos. unfold site, Configurations.combination.
  assert (Hl : length (map2 vadd (map (vscale a) S1) (map (vscale b) S2)) = length S1)
    by list_length.
  rewrite Hl, <- Hlen.
  assert (Hi : (Z.to_nat (z mod Z.of_nat (length S1)) < length S1)%nat).
  { pose proof (Z.mod_pos_bound z (Z.of_nat (length S1))). lia. }
  rewrite (nth_map2 _ _ _ _ zero3 zero3) by list_length.
  rewrite !(nth_map_lt _ _ _ zero3) by lia.
  reflexivity.
Qed.

Lemma roll_short {A : Type} (l : list A) :
  (length l <= 2)%nat -> roll 1 l = roll (-1) l.
Proof.
  destruct l as [|a [|b [|c l]]]; intros Hl; try reflexivity.
  simpl in Hl. lia.
Qed.

Lemma roll_repeat {A : Type} (k : Z) (x : A) (n : nat) :
  roll k (repeat x n) = repeat x n.
Proof.
  apply (nth_ext_lt _ _ x); [now rewrite length_roll|].
  intros i Hi. rewrite length_roll in Hi.
  rewrite nth_roll by exact Hi. now rewrite !nth_repeat.
Qed.

Lemma map2_repeat {A B C : Type} (f : A -> B -> C) (a : A) (b : B) (n : nat) :
  map2 f (repeat a n) (repeat b n) = repeat (f a b) n.
Proof. induction n as [|n IH]; [reflexivity|]. simpl. now rewrite IH. Qed.

Lemma internal_field_uniform (N : nat) (s : V3) :
  internal_field J D Da (repeat s N)
  = repeat (mkV3 (2 * J * vx s) (2 * J * vy s) ((2 * J - 2 * Da) * vz s)) N.
Proof.
  unfold internal_field. rewrite !roll_repeat.
  rewrite !map2_repeat, !map_repeat, !map2_repeat.
  f_equal. unfold vadd, vsub, vscale; cbn [vx vy vz]. f_equal; ring.
Qed.

End FieldShapes.

(** X1.  With a scalar external field [c] (the ground-state search passes
    0), [calculate_B_eff] never raises: it returns one row per site, the sum
    of the exchange, DMI and anisotropy terms with [c] added to each of the
    three components. *)
Theorem calculate_B_eff_scalar_field :
  forall (S : LlgEngine.chain) (J D Da c : R),
    exists B_eff,
      LlgEngine.calculate_B_eff S J D Da (LlgEngine.Scalar c) = Ok B_eff /\
      length B_eff = length S /\
      forall i, (i < length S)%nat ->
        nth i B_eff LlgEngine.zero3
        = LlgEngine.vadd_scalar
            (LlgEngine.vadd
               (LlgEngine.vadd (FieldModel.B_heis S J (Z.of_nat i))
                               (FieldModel.B_dmi S D (Z.of_nat i)))
               (FieldModel.B_aniso S Da (Z.of_nat i)))
            c.
Proof.
  intros S J D Da c. eexists. split; [apply calculate_B_eff_scalar|].
  split; [now rewrite length_map, length_internal_field|].
  intros i Hi.
  rewrite (nth_map_lt _ _ _ LlgEngine.zero3) by now rewrite length_internal_field.
  now rewrite nth_internal_field.
Qed.

(** X2.  An external field array whose number of rows is neither the
    number of sites nor 1, on a chain of other than one site, cannot be
    broadcast: [calculate_B_eff] raises ValueError. *)
Theorem calculate_B_eff_shape_mismatch :
  forall (S H_ext : LlgEngine.chain) (J D Da : R),
    length H_ext <> length S ->
    length H_ext <> 1%nat ->
    length S <> 1%nat ->
    LlgEngine.calculate_B_eff S J D Da (LlgEngine.Sites H_ext) = Raise ValueError.
Proof.
  intros S H_ext J D Da Hne H1 HS.
  rewrite calculate_B_eff_internal. cbn [LlgEngine.add_external].
  unfold LlgEngine.broadcast2.
  pose proof (length_internal_field J D Da S) as Hlen.
  destruct (Nat.eqb_spec (length (FieldModel.internal_field J D Da S)) (length H_ext)) as [E|_];
    [congruence|].
  destruct (FieldModel.internal_field J D Da S) as [|x [|y l]].
  - destruct H_ext as [|h [|h' H']]; try reflexivity. simpl in H1. lia.
  - simpl in Hlen. lia.
  - destruct H_ext as [|h [|h' H']]; try reflexivity. simpl in H1. lia.
Qed.

Lemma calculate_B_eff_shape_mismatch_witness :
  LlgEngine.calculate_B_eff Scenarios.pair_S 1 (1 / 4) (- (1 / 10))
    (LlgEngine.Sites (Scenarios.pair_H ++ Scenarios.pair_H)) = Raise ValueError.
Proof.
  apply calculate_B_eff_shape_mismatch; simpl; lia.
Defined.

(** X3.  An external field of a single row is broadcast: the same vector
    is added to the internal field of every site, whatever the number of
    sites. *)
Theorem calculate_B_eff_single_row_field :
  forall (S : LlgEngine.chain) (h : LlgEngine.V3) (J D Da : R),
    exists B_eff,
      LlgEngine.calculate_B_eff S J D Da (LlgEngine.Sites [h]) = Ok B_eff /\
      length B_eff = length S /\
      forall i, (i < length S)%nat ->
        nth i B_eff LlgEngine.zero3
        = LlgEngine.vadd
            (LlgEngine.vadd
               (LlgEngine.vadd (FieldModel.B_heis S J (Z.of_nat i))
                               (FieldModel.B_dmi S D (Z.of_nat i)))
               (FieldModel.B_aniso S Da (Z.of_nat i)))
            h.
Proof.
  intros S h J D Da.
  exists (map (fun x => LlgEngine.vadd x h) (FieldModel.internal_field J D Da S)).
  split; [|split].
  - rewrite calculate_B_eff_internal. cbn [LlgEngine.add_external].
    unfold LlgEngine.broadcast2.
    destruct (FieldModel.internal_field J D Da S) as [|x [|y l]]; reflexivity.
  - now rewrite length_map, length_internal_field.
  - intros i Hi.
    rewrite (nth_map_lt _ _ _ LlgEngine.zero3) by now rewrite length_internal_field.
    now rewrite nth_internal_field.
Qed.

(** X4.  Without external field the effective field is linear in the
    configuration: on two chains of the same length,
    B_eff(a S1 + b S2) = a B_eff(S1) + b B_eff(S2). *)
Theorem calculate_B_eff_linear :
  forall (S1 S2 : LlgEngine.chain) (J D Da a b : R),
    length S1 = length S2 ->
    exists B1 B2,
      LlgEngine.calculate_B_eff S1 J D Da (LlgEngine.Scalar 0) = Ok B1 /\
      LlgEngine.calculate_B_eff S2 J D Da (LlgEngine.Scalar 0) = Ok B2 /\
      LlgEngine.calculate_B_eff (Configurations.combination a S1 b S2) J D Da
        (LlgEngine.Scalar 0)
      = Ok (Configurations.combination a B1 b B2).
Proof.
  intros S1 S2 J D Da a b Hlen.
  do 2 eexists. split; [apply calculate_B_eff_scalar|].
  split; [apply calculate_B_eff_scalar|].
  rewrite calculate_B_eff_scalar. apply f_equal.
  assert (Hc : length (Configurations.combination a S1 b S2) = length S1)
    by (unfold Configurations.combination; list_length).
  apply (nth_ext_lt _ _ LlgEngine.zero3).
  - unfold Configurations.combination at 2.
    repeat (rewrite ?length_map2, ?length_map, ?length_internal_field). lia.
  - intros i Hi. rewrite length_map, length_internal_field, Hc in Hi.
    unfold Configurations.combination at 2.
    rewrite (nth_map2 _ _ _ _ LlgEngine.zero3 LlgEngine.zero3)
      by (repeat (rewrite ?length_map, ?length_internal_field); lia).
    repeat (rewrite (nth_map_lt _ _ _ LlgEngine.zero3)
              by (repeat (rewrite ?length_map, ?length_internal_field); lia)).
    rewrite !nth_internal_field by lia.
    unfold FieldModel.B_heis, FieldModel.B_dmi, FieldModel.B_aniso.
    rewrite !(site_combination a b S1 S2) by (try exact Hlen; lia).
    unfold LlgEngine.vadd, LlgEngine.vsub, LlgEngine.vscale, LlgEngine.vadd_scalar;
      cbn [LlgEngine.vx LlgEngine.vy LlgEngine.vz].
    f_equal; ring.
Qed.

Lemma calculate_B_eff_linear_witness :
  exists B1 B2,
    LlgEngine.calculate_B_eff Scenarios.pair_S 1 (1 / 4) (- (1 / 10))
      (LlgEngine.Scalar 0) = Ok B1 /\
    LlgEngine.calculate_B_eff Scenarios.pair_H 1 (1 / 4) (- (1 / 10))
      (LlgEngine.Scalar 0) = Ok B2 /\
    LlgEngine.calculate_B_eff
      (Configurations.combination 2 Scenarios.pair_S 3 Scenarios.pair_H)
      1 (1 / 4) (- (1 / 10)) (LlgEngine.Scalar 0)
    = Ok (Configurations.combination 2 B1 3 B2).
Proof.
  apply (calculate_B_eff_linear Scenarios.pair_S Scenarios.pair_H
           1 (1 / 4) (- (1 / 10)) 2 3).
  reflexivity.
Defined.


(** X6.  On a chain of at most two sites both neighbours of a site are the
    same site, so the DMI term vanishes for every configuration: each row
    of the field is the exchange term plus the anisotropy term plus the
    scalar external field. *)
Theorem calculate_B_eff_short_chain_no_dmi :
  forall (S : LlgEngine.chain) (J D Da c : R),
    (length S <= 2)%nat ->
    exists B_eff,
      LlgEngine.calculate_B_eff S J D Da (LlgEngine.Scalar c) = Ok B_eff /\
      length B_eff = length S /\
      forall i, (i < length S)%nat ->
        nth i B_eff LlgEngine.zero3
        = LlgEngine.vadd_scalar
            (LlgEngine.vadd (FieldModel.B_heis S J (Z.of_nat i))
                            (FieldModel.B_aniso S Da (Z.of_nat i)))
            c.
Proof.
  intros S J D Da c Hshort.
  eexists. split; [apply calculate_B_eff_scalar|].
  split; [now rewrite length_map, length_internal_field|].
  intros i Hi.
  rewrite (nth_map_lt _ _ _ LlgEngine.zero3) by now rewrite length_internal_field.
  rewrite nth_internal_field by exact Hi.
  assert (Hsite : FieldModel.site S (Z.of_nat i + 1) = FieldModel.site S (Z.of_nat i - 1)).
  { pose proof (nth_roll_site S (-1) i Hi) as Hn.
    pose proof (nth_roll_site S 1 i Hi) as Hp.
    replace (Z.of_nat i - -1)%Z with (Z.of_nat i + 1)%Z in Hn by lia.
    rewrite <- Hn, <- Hp. now rewrite (roll_short S Hshort). }
  unfold FieldModel.B_dmi. rewrite Hsite.
  unfold LlgEngine.vadd, LlgEngine.vsub, LlgEngine.vadd_scalar;
    cbn [LlgEngine.vx LlgEngine.vy LlgEngine.vz].
  f_equal; ring.
Qed.

Lemma calculate_B_eff_short_chain_no_dmi_witness :
  exists B_eff,
    LlgEngine.calculate_B_eff Scenarios.pair_S 1 (1 / 4) (- (1 / 10))
      (LlgEngine.Scalar 0) = Ok B_eff /\
    length B_eff = 2%nat.
Proof.
  destruct (calculate_B_eff_short_chain_no_dmi Scenarios.pair_S 1 (1 / 4) (- (1 / 10)) 0)
    as (B & HB & Hlen & _).
  - simpl. lia.
  - exists B. split; assumption.
Defined.

(** ** Ground-state relaxation: invariants, budget and degenerate inputs *)

Section RelaxationFacts.

Import LlgEngine FieldModel.
Local Open Scope R_scope.

Lemma divide_by_norms_unit (S S' : chain) :
  divide_rows S (map norm S) = Ok S' ->
  length S' = length S /\ Forall (fun v => norm v = 1) S'.
Proof.
  revert S'. induction S as [|v S IH]; intros S' H.
  - injection H as <-. split; [reflexivity | constructor].
  - unfold divide_rows in *. cbn [map mapM2] in H. unfold vdiv at 1 in H.
    destruct (Req_dec_T (norm v) 0) as [Hz|Hnz]; [discriminate|].
    cbn [bind] in H.
    destruct (mapM2 vdiv S (map norm S)) as [R|e]; [|discriminate].
    cbn [bind] in H. injection H as <-.
    destruct (IH R eq_refl) as [Hlen Hunit].
    split; [simpl; now rewrite Hlen|].
    constructor; [|exact Hunit]. now apply norm_vquot.
Qed.

Lemma divide_by_norms_zero (S : chain) :
  Exists (fun v => norm v = 0) S ->
  divide_rows S (map norm S) = Raise ZeroDivide.
Proof.
  induction S as [|v S IH]; intros H; [inversion H|].
  unfold divide_rows in *. cbn [map mapM2]. unfold vdiv at 1.
  destruct (Req_dec_T (norm v) 0) as [Hz|Hnz]; [reflexivity|].
  cbn [bind]. rewrite IH; [reflexivity|].
  inversion H; subst; [contradiction | assumption].
Qed.

Variables (J D Da tolerance dt_relax : R).

Lemma relax_step_unit (S S' : chain) :
  relax_step J D Da dt_relax S = Ok S' ->
  length S' = length S /\ Forall (fun v => norm v = 1) S'.
Proof.
  unfold relax_step. rewrite calculate_B_eff_scalar. cbn [bind]. cbv zeta.
  intros H. apply divide_by_norms_unit in H as [Hlen Hunit].
  split; [|exact Hunit].
  rewrite Hlen. repeat (rewrite ?length_map2, ?length_map, ?length_internal_field). lia.
Qed.

Lemma relax_loop_unit (remaining step : nat) (S S' : chain) :
  Forall (fun v => norm v = 1) S ->
  relax_loop J D Da tolerance dt_relax remaining step S = Ok S' ->
  length S' = length S /\ Forall (fun v => norm v = 1) S'.
Proof.
  revert step S. induction remaining as [|remaining IH]; intros step S HS H.
  - injection H as <-. auto.
  - rewrite relax_loop_succ in H.
    destruct (relax_step J D Da dt_relax S) as [S1|e] eqn:Hstep; [|discriminate].
    cbn [bind] in H.
    destruct (relax_step_unit S S1 Hstep) as [Hlen1 Hunit1].
    assert (Hrec : relax_loop J D Da tolerance dt_relax remaining (Datatypes.S step) S1 = Ok S' ->
                   length S' = length S /\ Forall (fun v => norm v = 1) S').
    { intros Hr. destruct (IH _ _ Hunit1 Hr) as [Hl Hu]. split; [congruence | exact Hu]. }
    destruct (Nat.eqb (step mod 500) 0); [|exact (Hrec H)].
    destruct (max_abs_diff S1 S) as [c|e]; [|discriminate].
    cbn [bind] in H.
    destruct (Rlt_dec c tolerance); [|exact (Hrec H)].
    injection H as <-. auto.
Qed.

Lemma relax_loop_exhausted (remaining step : nat) (S S' : chain) :
  (forall j, (j < remaining)%nat -> ((step + j) mod 500 = 0)%nat ->
             large_step J D Da tolerance dt_relax j S) ->
  iterate J D Da dt_relax remaining S = Ok S' ->
  relax_loop J D Da tolerance dt_relax remaining step S = Ok S'.
Proof.
  revert step S. induction remaining as [|remaining IH]; intros step S Hlarge Hiter.
  - exact Hiter.
  - destruct (iterate_defined_head _ _ _ _ _ _ _ Hiter) as (S1 & HS1 & Hiter1).
    assert (Hrec : relax_loop J D Da tolerance dt_relax remaining (Datatypes.S step) S1 = Ok S').
    { apply IH; [|exact Hiter1].
      intros j Hj Hjmod.
      destruct (Hlarge (Datatypes.S j)) as (A & B & c & HA & HB & Hc & Hnlt);
        [lia | replace (step + Datatypes.S j)%nat
                 with (Datatypes.S step + j)%nat by lia; exact Hjmod |].
      rewrite (iterate_succ _ _ _ _ _ _ _ HS1) in HA.
      now exists A, B, c. }
    rewrite relax_loop_succ, HS1. cbn [bind].
    destruct (Nat.eqb (step mod 500) 0) eqn:Hcp; [|exact Hrec].
    apply Nat.eqb_eq in Hcp.
    destruct (Hlarge 0%nat) as (A & B & c & HA & HB & Hc & Hnlt);
      [lia | now rewrite Nat.add_0_r |].
    simpl in HA. injection HA as <-.
    rewrite HS1 in HB. injection HB as <-.
    rewrite Hc. cbn [bind].
    destruct (Rlt_dec c tolerance); [contradiction | exact Hrec].
Qed.

Lemma fold_left_Rmax_zero (l : list R) :
  Forall (fun x => x = 0) l -> fold_left Rmax l 0 = 0.
Proof.
  induction 1 as [|x l Hx _ IH]; [reflexivity|].
  subst x. cbn [fold_left].
  replace (Rmax 0 0) with 0 by (unfold Rmax; destruct (Rle_dec 0 0); reflexivity).
  exact IH.
Qed.

Lemma abs_diff_self_zero (S : chain) :
  Forall (fun x => x = 0) (map Rabs (flatten (map2 vsub S S))).
Proof.
  induction S as [|v S IH]; [constructor|].
  cbn [map2 flatten flat_map map app vsub vx vy vz].
  repeat constructor; try (rewrite Rminus_diag; apply Rabs_R0).
  exact IH.
Qed.

Lemma max_abs_diff_self (S : chain) :
  S <> [] -> max_abs_diff S S = Ok 0.
Proof.
  intros HS. unfold max_abs_diff.
  pose proof (abs_diff_self_zero S) as Hz.
  destruct S as [|v S]; [contradiction|].
  cbn [map2 flatten flat_map map app vsub vx vy vz] in *.
  inversion Hz as [|x l Hx Hl]; subst.
  cbn [np_max]. rewrite Hx. f_equal. now apply fold_left_Rmax_zero.
Qed.

Lemma relax_loop_fixed_point (S : chain) :
  relax_step J D Da dt_relax S = Ok S -> S <> [] ->
  forall remaining step,
    relax_loop J D Da tolerance dt_relax remaining step S = Ok S.
Proof.
  intros Hfix HS. induction remaining as [|remaining IH]; intros step; [reflexivity|].
  rewrite relax_loop_succ, Hfix. cbn [bind].
  rewrite max_abs_diff_self by exact HS. cbn [bind].
  destruct (Nat.eqb (step mod 500) 0); [|apply IH].
  destruct (Rlt_dec 0 tolerance); [reflexivity | apply IH].
Qed.

End RelaxationFacts.

(** X7.  In exact arithmetic, and on the runs in which no normalization
    meets a row of zero norm (there numpy divides by zero, warns and goes
    on with nan rows, which the model marks as ZeroDivide instead of
    following): the configuration [find_ground_state] returns has one row
    per drawn row and every row has norm 1, since each iteration, and the
    initialization, ends with a division by the row norms. *)
Theorem find_ground_state_unit_spins :
  forall (draw : LlgEngine.chain) (J D Da : R) (max_steps : nat)
         (tolerance dt_relax : R) (S : LlgEngine.chain),
    LlgEngine.find_ground_state draw J D Da max_steps tolerance dt_relax = Ok S ->
    length S = length draw /\
    forall i, (i < length S)%nat -> LlgEngine.norm (nth i S LlgEngine.zero3) = 1%R.
Proof.
  intros draw J D Da max_steps tolerance dt_relax S H.
  unfold LlgEngine.find_ground_state in H. cbv zeta in H.
  destruct (LlgEngine.divide_rows _ _) as [S0|e] eqn:Hinit; [|discriminate].
  cbn [bind] in H.
  destruct (divide_by_norms_unit _ _ Hinit) as [Hlen0 Hunit0].
  destruct (relax_loop_unit J D Da tolerance dt_relax max_steps 0 S0 S Hunit0 H)
    as [Hlen Hunit].
  split; [rewrite Hlen, Hlen0; now rewrite length_map|].
  intros i Hi. rewrite Forall_forall in Hunit. apply Hunit. now apply nth_In.
Qed.

Lemma find_ground_state_unit_spins_witness :
  length Scenarios.up = length Scenarios.flip_draw /\
  forall i, (i < length Scenarios.up)%nat ->
    LlgEngine.norm (nth i Scenarios.up LlgEngine.zero3) = 1%R.
Proof.
  apply (find_ground_state_unit_spins Scenarios.flip_draw Scenarios.flip_J 0 0 502
           LlgEngine.default_tolerance Scenarios.flip_dt Scenarios.up).
  exact flip_run_code.
Defined.

(** X8.  Non-convergence is not signalled: when the iteration at every
    checkpoint step below [max_steps] changes some component by
    [tolerance] or more, [find_ground_state] performs all [max_steps]
    iterations and returns the last configuration. *)
Theorem find_ground_state_exhausts_budget :
  forall (draw : LlgEngine.chain) (J D Da : R) (max_steps : nat)
         (tolerance dt_relax : R) (S0 S : LlgEngine.chain),
    LlgEngine.divide_rows
      (map (fun v => LlgEngine.vadd_scalar v (- (5 / 10))%R) draw)
      (map LlgEngine.norm (map (fun v => LlgEngine.vadd_scalar v (- (5 / 10))%R) draw))
    = Ok S0 ->
    (forall j, (j < max_steps)%nat -> (j mod 500 = 0)%nat ->
               LlgEngine.large_step J D Da tolerance dt_relax j S0) ->
    LlgEngine.iterate J D Da dt_relax max_steps S0 = Ok S ->
    LlgEngine.find_ground_state draw J D Da max_steps tolerance dt_relax = Ok S.
Proof.
  intros draw J D Da max_steps tolerance dt_relax S0 S Hinit Hlarge Hiter.
  unfold LlgEngine.find_ground_state. cbv zeta. rewrite Hinit. cbn [bind].
  apply relax_loop_exhausted; [|exact Hiter].
  intros j Hj Hmod. apply Hlarge; assumption.
Qed.

Lemma find_ground_state_exhausts_budget_witness :
  LlgEngine.find_ground_state Scenarios.settle_draw
    Scenarios.settle_J 0 Scenarios.settle_Da 1
    LlgEngine.default_tolerance Scenarios.settle_dt
  = Ok Scenarios.up.
Proof.
  apply (find_ground_state_exhausts_budget Scenarios.settle_draw
           Scenarios.settle_J 0 Scenarios.settle_Da 1
           LlgEngine.default_tolerance Scenarios.settle_dt
           Scenarios.settle_start Scenarios.up).
  - exact settle_initial.
  - intros j Hj Hmod. apply settle_large_first_step; [lia | exact Hmod].
  - rewrite (iterate_succ _ _ _ _ _ _ _ settle_first). reflexivity.
Defined.

(** X9.  On an empty chain (N = 0) the first convergence test takes the
    maximum of an empty array: [find_ground_state] raises ValueError as
    soon as [max_steps] is positive, and returns the empty configuration
    when [max_steps] is 0. *)
Theorem find_ground_state_empty_chain :
  forall (J D Da : R) (max_steps : nat) (tolerance dt_relax : R),
    LlgEngine.find_ground_state [] J D Da (S max_steps) tolerance dt_relax
    = Raise ValueError /\
    LlgEngine.find_ground_state [] J D Da 0 tolerance dt_relax = Ok [].
Proof.
  intros J D Da max_steps tolerance dt_relax. split; reflexivity.
Qed.

(** X10.  A stationary configuration is returned as it is: when the
    normalized draw [S0] is not empty and one iteration maps it to itself,
    [find_ground_state] returns [S0] for every [max_steps] and
    [tolerance]. *)
Theorem find_ground_state_stationary :
  forall (draw : LlgEngine.chain) (J D Da : R) (max_steps : nat)
         (tolerance dt_relax : R) (S0 : LlgEngine.chain),
    LlgEngine.divide_rows
      (map (fun v => LlgEngine.vadd_scalar v (- (5 / 10))%R) draw)
      (map LlgEngine.norm (map (fun v => LlgEngine.vadd_scalar v (- (5 / 10))%R) draw))
    = Ok S0 ->
    S0 <> [] ->
    LlgEngine.relax_step J D Da dt_relax S0 = Ok S0 ->
    LlgEngine.find_ground_state draw J D Da max_steps tolerance dt_relax = Ok S0.
Proof.
  intros draw J D Da max_steps tolerance dt_relax S0 Hinit HS Hfix.
  unfold LlgEngine.find_ground_state. cbv zeta. rewrite Hinit. cbn [bind].
  now apply relax_loop_fixed_point.
Qed.

Lemma find_ground_state_stationary_witness :
  LlgEngine.find_ground_state Scenarios.flip_draw
    Scenarios.settle_J 0 Scenarios.settle_Da LlgEngine.default_max_steps
    LlgEngine.default_tolerance Scenarios.settle_dt
  = Ok Scenarios.up.
Proof.
  apply (find_ground_state_stationary Scenarios.flip_draw
           Scenarios.settle_J 0 Scenarios.settle_Da LlgEngine.default_max_steps
           LlgEngine.default_tolerance Scenarios.settle_dt Scenarios.up).
  - exact flip_initial.
  - discriminate.
  - exact settle_fixed.
Defined.

Section UniformStates.

Import LlgEngine FieldModel.
Local Open Scope R_scope.




End UniformStates.



(** ** The right-hand side: the caller's array, errors, symmetries *)

Section RhsState.

Import LlgEngine FieldModel.
Local Open Scope R_scope.

Lemma rows3_flatten (S : chain) : rows3 (flatten S) = S.
Proof.
  induction S as [|v S IH]; [reflexivity|].
  destruct v as [x y z]. cbn [flatten flat_map app vx vy vz rows3].
  fold (flatten S). now rewrite IH.
Qed.

Lemma fix_norm_unit (v : V3) :
  norm v = 0 \/ norm v = 1 ->
  vquot v (if Req_dec_T (norm v) 0 then 1 else norm v) = v.
Proof.
  intros [H0|H1]; destruct (Req_dec_T (norm v) 0) as [E|NE].
  - apply vquot_one.
  - contradiction.
  - apply vquot_one.
  - rewrite H1. apply vquot_one.
Qed.

Lemma norm_renormalized_row (s : V3) :
  let s' := vquot s (if Req_dec_T (norm s) 0 then 1 else norm s) in
  norm s' = 0 \/ norm s' = 1.
Proof.
  cbv zeta. destruct (Req_dec_T (norm s) 0) as [E|NE].
  - left. now rewrite vquot_one.
  - right. now apply norm_vquot.
Qed.

Lemma renormalized_idempotent (S : chain) :
  renormalized (renormalized S) = renormalized S.
Proof.
  apply (nth_ext_lt _ _ zero3); [now rewrite !length_renormalized|].
  intros i Hi. rewrite !length_renormalized in Hi.
  rewrite nth_renormalized by now rewrite length_renormalized.
  cbv zeta. rewrite nth_renormalized by exact Hi. cbv zeta.
  apply fix_norm_unit. apply norm_renormalized_row.
Qed.

Lemma renormalized_fixed_iff (S : chain) :
  renormalized S = S <->
  forall i, (i < length S)%nat -> norm (nth i S zero3) = 0 \/ norm (nth i S zero3) = 1.
Proof.
  split.
  - intros Hfix i Hi.
    pose proof (nth_renormalized S i Hi) as Hrow. cbv zeta in Hrow.
    rewrite Hfix in Hrow.
    destruct (Req_dec_T (norm (nth i S zero3)) 0) as [E|NE]; [now left|right].
    pose proof (norm_vquot _ NE) as H1. now rewrite <- Hrow in H1.
  - intros Hall. apply (nth_ext_lt _ _ zero3); [apply length_renormalized|].
    intros i Hi. rewrite length_renormalized in Hi.
    rewrite nth_renormalized by exact Hi. cbv zeta.
    apply fix_norm_unit. now apply Hall.
Qed.

Variable HArgs : Type.

Lemma llg_rhs_state (t : R) (S_flat : list R) (N : nat) (J D Da alpha gamma : R)
    (f : option (R -> nat -> HArgs -> result field)) (kw : option HArgs) :
  length S_flat = (3 * N)%nat ->
  fst (llg_rhs HArgs t S_flat N J D Da alpha gamma f kw)
  = flatten (renormalized (rows3 S_flat)).
Proof.
  intros Hlen. unfold llg_rhs. rewrite reshape_ok by exact Hlen.
  now rewrite renormalize_total.
Qed.

End RhsState.

(** X12.  With a field function but no [h_args] (the default None) the
    call raises TypeError, and it does so after the renormalization: the
    caller's array has already been overwritten by the renormalized
    state. *)
Theorem llg_rhs_missing_h_args :
  forall (HArgs : Type) (t : R) (S_flat : list R) (N : nat) (J D Da alpha gamma : R)
         (h_external_func : R -> nat -> HArgs -> result LlgEngine.field),
    length S_flat = (3 * N)%nat ->
    LlgEngine.llg_rhs HArgs t S_flat N J D Da alpha gamma (Some h_external_func) None
    = (LlgEngine.flatten (FieldModel.renormalized (LlgEngine.rows3 S_flat)),
       Raise TypeError).
Proof.
  intros HArgs t S_flat N J D Da alpha gamma f Hlen.
  unfold LlgEngine.llg_rhs. rewrite reshape_ok by exact Hlen.
  now rewrite renormalize_total.
Qed.

Lemma llg_rhs_missing_h_args_witness :
  LlgEngine.llg_rhs unit 0 Scenarios.degenerate_state 2
    1 (1 / 4) (- (1 / 10)) (1 / 20) 1
    (Some (fun _ _ _ => Ok (LlgEngine.Scalar 0))) None
  = (LlgEngine.flatten
       (FieldModel.renormalized (LlgEngine.rows3 Scenarios.degenerate_state)),
     Raise TypeError).
Proof.
  apply llg_rhs_missing_h_args. reflexivity.
Defined.

(** X13.  In exact arithmetic the write to the caller's array is
    idempotent: a second call on the array left by a first call (at any
    time, with any parameters and field) leaves it as the first call did.
    (On doubles the second division can still change a last digit.) *)
Theorem llg_rhs_state_idempotent :
  forall (HArgs : Type) (t t' : R) (S_flat : list R) (N : nat)
         (J D Da alpha gamma J' D' Da' alpha' gamma' : R)
         (f f' : option (R -> nat -> HArgs -> result LlgEngine.field))
         (kw kw' : option HArgs),
    length S_flat = (3 * N)%nat ->
    fst (LlgEngine.llg_rhs HArgs t'
           (fst (LlgEngine.llg_rhs HArgs t S_flat N J D Da alpha gamma f kw))
           N J' D' Da' alpha' gamma' f' kw')
    = fst (LlgEngine.llg_rhs HArgs t S_flat N J D Da alpha gamma f kw).
Proof.
  intros HArgs t t' S_flat N J D Da alpha gamma J' D' Da' alpha' gamma' f f' kw kw' Hlen.
  rewrite (llg_rhs_state HArgs t S_flat N J D Da alpha gamma f kw Hlen).
  rewrite llg_rhs_state.
  - now rewrite rows3_flatten, renormalized_idempotent.
  - rewrite length_flatten, length_renormalized. f_equal. now apply length_rows3.
Qed.

Lemma llg_rhs_state_idempotent_witness :
  fst (LlgEngine.llg_rhs unit 1
         (fst (LlgEngine.llg_rhs unit 0 Scenarios.degenerate_state 2
                 1 (1 / 4) (- (1 / 10)) (1 / 20) 1 None None))
         2 1 (1 / 4) (- (1 / 10)) (1 / 20) 1 None None)
  = fst (LlgEngine.llg_rhs unit 0 Scenarios.degenerate_state 2
           1 (1 / 4) (- (1 / 10)) (1 / 20) 1 None None).
Proof.
  apply llg_rhs_state_idempotent. reflexivity.
Defined.

(** X14.  The caller's array is left unchanged by a call exactly when
    every site of the state has norm 0 or norm 1. *)
Theorem llg_rhs_state_unchanged_iff :
  forall (HArgs : Type) (t : R) (S_flat : list R) (N : nat) (J D Da alpha gamma : R)
         (f : option (R -> nat -> HArgs -> result LlgEngine.field))
         (kw : option HArgs),
    length S_flat = (3 * N)%nat ->
    (fst (LlgEngine.llg_rhs HArgs t S_flat N J D Da alpha gamma f kw) = S_flat
     <-> forall i, (i < N)%nat ->
           LlgEngine.norm (FieldModel.row_of S_flat i) = 0%R \/
           LlgEngine.norm (FieldModel.row_of S_flat i) = 1%R).
Proof.
  intros HArgs t S_flat N J D Da alpha gamma f kw Hlen.
  rewrite (llg_rhs_state HArgs t S_flat N J D Da alpha gamma f kw Hlen).
  pose proof (length_rows3 _ _ Hlen) as Hrows.
  pose proof (flatten_rows3 _ _ Hlen) as Hflat.
  assert (Hiff : LlgEngine.flatten (FieldModel.renormalized (LlgEngine.rows3 S_flat)) = S_flat
                 <-> FieldModel.renormalized (LlgEngine.rows3 S_flat) = LlgEngine.rows3 S_flat).
  { split; intros H.
    - rewrite <- H at 2. now rewrite rows3_flatten.
    - now rewrite H. }
  rewrite Hiff, renormalized_fixed_iff, Hrows.
  split; intros H i Hi.
  - rewrite <- (nth_rows3 S_flat N i Hlen Hi). now apply H.
  - rewrite (nth_rows3 S_flat N i Hlen Hi). now apply H.
Qed.

Lemma llg_rhs_state_unchanged_iff_witness :
  fst (LlgEngine.llg_rhs unit 0 Scenarios.degenerate_state 2
         1 (1 / 4) (- (1 / 10)) (1 / 20) 1 None None) = Scenarios.degenerate_state
  <-> forall i, (i < 2)%nat ->
        LlgEngine.norm (FieldModel.row_of Scenarios.degenerate_state i) = 0%R \/
        LlgEngine.norm (FieldModel.row_of Scenarios.degenerate_state i) = 1%R.
Proof.
  apply llg_rhs_state_unchanged_iff. reflexivity.
Defined.

Section RhsSymmetries.

Import LlgEngine FieldModel.
Local Open Scope R_scope.

Lemma rows3_scale (c : R) (a : list R) (N : nat) :
  length a = (3 * N)%nat -> rows3 (map (Rmult c) a) = map (vscale c) (rows3 a).
Proof.
  revert a. induction N as [|N IH]; intros a Ha.
  - destruct a; [reflexivity | simpl in Ha; lia].
  - destruct a as [|x [|y [|z a]]]; simpl in Ha; try lia.
    cbn [map rows3]. rewrite IH by lia. reflexivity.
Qed.

Lemma norm_vscale (c : R) (s : V3) : 0 <= c -> norm (vscale c s) = c * norm s.
Proof.
  intros Hc. unfold norm, vscale; cbn [vx vy vz].
  replace (c * vx s * (c * vx s) + c * vy s * (c * vy s) + c * vz s * (c * vz s))
    with (c * c * (vx s * vx s + vy s * vy s + vz s * vz s)) by ring.
  rewrite sqrt_mult by nra. now rewrite sqrt_square.
Qed.

Lemma norm_zero_components (s : V3) :
  norm s = 0 -> vx s = 0 /\ vy s = 0 /\ vz s = 0.
Proof.
  intros H. unfold norm in H. apply sqrt_eq_0 in H; [|nra].
  repeat split; nra.
Qed.

Lemma renormalized_scale (c : R) (S : chain) :
  0 < c -> renormalized (map (vscale c) S) = renormalized S.
Proof.
  intros Hc. apply (nth_ext_lt _ _ zero3).
  - now rewrite !length_renormalized, length_map.
  - intros i Hi. rewrite length_renormalized, length_map in Hi.
    rewrite !nth_renormalized by (rewrite ?length_map; exact Hi). cbv zeta.
    rewrite (nth_map_lt _ _ _ zero3) by exact Hi.
    set (s := nth i S zero3).
    rewrite norm_vscale by lra.
    destruct (Req_dec_T (norm s) 0) as [E|NE].
    + rewrite E, Rmult_0_r. destruct (Req_dec_T 0 0) as [_|ne]; [|contradiction].
      destruct (norm_zero_components s E) as (Hx & Hy & Hz).
      unfold vquot, vscale; cbn [vx vy vz]. rewrite Hx, Hy, Hz. f_equal; field.
    + destruct (Req_dec_T (c * norm s) 0) as [E'|_]; [nra|].
      unfold vquot, vscale; cbn [vx vy vz]. f_equal; field; split; lra.
Qed.



Lemma flatten_repeat_zero (N : nat) :
  flatten (repeat (mkV3 0 0 0) N) = repeat 0 (3 * N).
Proof.
  induction N as [|N IH]; [reflexivity|].
  replace (3 * Datatypes.S N)%nat with (Datatypes.S (Datatypes.S (Datatypes.S (3 * N)))) by lia.
  cbn [repeat flatten flat_map app vx vy vz]. fold (flatten (repeat (mkV3 0 0 0) N)).
  now rewrite IH.
Qed.

Lemma renormalized_repeat (v : V3) (N : nat) :
  renormalized (repeat v N)
  = repeat (vquot v (if Req_dec_T (norm v) 0 then 1 else norm v)) N.
Proof.
  unfold renormalized, fix_zero_norms. now rewrite !map_repeat, map2_repeat.
Qed.

End RhsSymmetries.

(** X15.  In exact arithmetic [llg_rhs] sees only the directions of the
    spins: multiplying the whole state by a factor c > 0 changes neither
    the value returned nor the content left in the caller's array.  (On
    doubles the factor changes the rounding, and a squared norm that
    overflows or underflows changes the result altogether.) *)
Theorem llg_rhs_scale_invariant :
  forall (HArgs : Type) (t : R) (S_flat : list R) (N : nat) (J D Da alpha gamma : R)
         (f : option (R -> nat -> HArgs -> result LlgEngine.field))
         (kw : option HArgs) (c : R),
    length S_flat = (3 * N)%nat ->
    (0 < c)%R ->
    LlgEngine.llg_rhs HArgs t (map (Rmult c) S_flat) N J D Da alpha gamma f kw
    = LlgEngine.llg_rhs HArgs t S_flat N J D Da alpha gamma f kw.
Proof.
  intros HArgs t S_flat N J D Da alpha gamma f kw c Hlen Hc.
  unfold LlgEngine.llg_rhs.
  rewrite !reshape_ok by (rewrite ?length_map; exact Hlen).
  rewrite !renormalize_total.
  rewrite (rows3_scale c S_flat N Hlen), (renormalized_scale c _ Hc).
  reflexivity.
Qed.

Lemma llg_rhs_scale_invariant_witness :
  LlgEngine.llg_rhs unit 0 (map (Rmult 3) Scenarios.degenerate_state) 2
    1 (1 / 4) (- (1 / 10)) (1 / 20) 1 None None
  = LlgEngine.llg_rhs unit 0 Scenarios.degenerate_state 2
      1 (1 / 4) (- (1 / 10)) (1 / 20) 1 None None.
Proof.
  apply llg_rhs_scale_invariant; [reflexivity | lra].
Defined.



(** X17.  In exact arithmetic, without external field a configuration
    with every spin along the third axis (all sites (0, 0, c), as the run
    script's initial state with c = 1) is stationary: [llg_rhs] returns 3N
    zeros, for every J, D, Da, alpha and gamma.  (On doubles this needs
    parameters small enough for the field not to overflow.) *)
Theorem llg_rhs_axis_state_stationary :
  forall (HArgs : Type) (t : R) (N : nat) (c J D Da alpha gamma : R),
    snd (LlgEngine.llg_rhs HArgs t
           (LlgEngine.flatten (Configurations.uniform N (LlgEngine.mkV3 0 0 c)))
           N J D Da alpha gamma None None)
    = Ok (repeat 0%R (3 * N)).
Proof.
  intros HArgs t N c J D Da alpha gamma.
  unfold Configurations.uniform.
  assert (Hlen : length (LlgEngine.flatten (repeat (LlgEngine.mkV3 0 0 c) N)) = (3 * N)%nat)
    by now rewrite length_flatten, repeat_length.
  destruct (llg_rhs_value HArgs t _ N J D Da alpha gamma None None
              (LlgEngine.Scalar 0) Hlen eq_refl I) as (B & HB & _ & Hrhs).
  rewrite Hrhs. cbn [snd]. f_equal.
  rewrite rows3_flatten, renormalized_repeat in HB |- *.
  rewrite calculate_B_eff_scalar, internal_field_uniform, map_repeat in HB.
  injection HB as <-.
  unfold FieldModel.rhs_rows.
  rewrite !map2_repeat, !map_repeat, !map2_repeat.
  rewrite <- flatten_repeat_zero. do 2 f_equal.
  unfold LlgEngine.vadd, LlgEngine.vscale, LlgEngine.cross, LlgEngine.vadd_scalar,
    FieldModel.vquot; cbn [LlgEngine.vx LlgEngine.vy LlgEngine.vz].
  unfold Rdiv. f_equal; ring.
Qed.

(** ** The external field of the mobility scan *)

Section PulseField.

Import LlgEngine FieldModel MobilityScan.
Local Open Scope R_scope.










End PulseField.







(** ** Tracking: where the positions lie and which times are kept *)

Section TrackedSamples.

Import Kinematics Configurations.
Local Open Scope nat_scope.

Lemma list_sum_bound (l : list nat) (N : nat) :
  Forall (fun i => i < N) l -> list_sum l + length l <= length l * N.
Proof.
  induction 1 as [|i l Hi _ IH]; [reflexivity|].
  change (list_sum (i :: l)) with (i + list_sum l).
  change (length (i :: l)) with (S (length l)).
  rewrite Nat.mul_succ_l. lia.
Qed.

Lemma inject_nat_pos (n : nat) : 0 < n -> (0 < inject_Z (Z.of_nat n))%Q.
Proof.
  intros Hn. change 0%Q with (inject_Z 0). rewrite <- Zlt_Qlt. lia.
Qed.

Lemma np_mean_bounds (idx : list nat) (N : nat) :
  idx <> [] -> Forall (fun i => i < N) idx ->
  (0 <= np_mean idx /\ np_mean idx <= inject_Z (Z.of_nat N) - 1)%Q.
Proof.
  intros Hne Hall.
  assert (Hlen : 0 < length idx) by (destruct idx; [contradiction | simpl; lia]).
  pose proof (inject_nat_pos _ Hlen) as Hpos.
  pose proof (list_sum_bound idx N Hall) as Hsum.
  unfold np_mean. split.
  - apply Qle_shift_div_l; [exact Hpos|].
    rewrite Qmult_0_l. change 0%Q with (inject_Z 0). rewrite <- Zle_Qle. lia.
  - apply Qle_shift_div_r; [exact Hpos|].
    assert (E : ((inject_Z (Z.of_nat N) - 1) * inject_Z (Z.of_nat (length idx))
                 == inject_Z ((Z.of_nat N - 1) * Z.of_nat (length idx)))%Q).
    { rewrite inject_Z_mult. unfold Z.sub. rewrite inject_Z_plus. reflexivity. }
    rewrite E, <- Zle_Qle. nia.
Qed.

Lemma core_below (data : npz) (N t : nat) : Forall (fun i => i < N) (core data N t).
Proof.
  apply Forall_forall. intros i Hi. unfold core in Hi.
  apply filter_In in Hi as [Hi _]. apply in_seq in Hi. lia.
Qed.

Lemma has_core_nonempty (data : npz) (N t : nat) :
  has_core data N t = true -> core data N t <> [].
Proof. unfold has_core. destruct (core data N t); [discriminate | discriminate]. Qed.

Lemma tracked_positions_bounds (data : npz) (N T : nat) (p : Q) :
  In p (tracked_positions data N T) ->
  (0 <= p /\ p <= inject_Z (Z.of_nat N) - 1)%Q.
Proof.
  unfold tracked_positions, samples_with_soliton. intros Hp.
  apply in_map_iff in Hp as (t & <- & Ht).
  apply filter_In in Ht as [_ Hcore].
  apply np_mean_bounds; [now apply has_core_nonempty | apply core_below].
Qed.

Lemma selection_refl {A : Type} (l : list A) : selection l l.
Proof. induction l; constructor; assumption. Qed.

Lemma selection_nth_filter {A : Type} (f : nat -> bool) (l : list A) (d : A) (k : nat) :
  selection (map (fun t => nth (t - k) l d) (filter f (seq k (length l)))) l.
Proof.
  revert k. induction l as [|x l IH]; intros k; [constructor|].
  cbn [length seq filter].
  assert (Hext : map (fun t => nth (t - k) (x :: l) d) (filter f (seq (S k) (length l)))
                 = map (fun t => nth (t - S k) l d) (filter f (seq (S k) (length l)))).
  { apply map_ext_in. intros j Hj. apply filter_In in Hj as [Hj _].
    apply in_seq in Hj. replace (j - k) with (S (j - S k)) by lia. reflexivity. }
  destruct (f k); cbn [map]; rewrite Hext.
  - rewrite Nat.sub_diag. cbn [nth]. constructor. apply IH.
  - constructor. apply IH.
Qed.

Lemma tracked_times_selection (data : npz) (N T : nat) :
  length (time_points data) = T ->
  selection (tracked_times data N T) (time_points data).
Proof.
  intros HT. unfold tracked_times, samples_with_soliton. subst T.
  pose proof (selection_nth_filter (has_core data N) (time_points data) 0%Q 0) as H.
  erewrite map_ext in H; [exact H|].
  intros t. cbv beta. now rewrite Nat.sub_0_r.
Qed.

Lemma selection_length {A : Type} (l l' : list A) :
  selection l l' -> length l <= length l'.
Proof. induction 1; simpl; lia. Qed.

End TrackedSamples.

(** X21.  On a well-formed run of N sites every tracked position lies on
    the chain: the tracking loop returns positions between 0 and N - 1. *)
Theorem tracked_positions_on_chain :
  forall (data : Kinematics.npz) (N T : nat),
    Kinematics.well_formed data N T ->
    exists sz_history positions times,
      Kinematics.sz_history_of (Kinematics.S_history data) = Ok sz_history /\
      Kinematics.track sz_history 0 (Kinematics.time_points data)
      = Ok (positions, times) /\
      forall p, In p positions ->
                (0 <= p /\ p <= inject_Z (Z.of_nat N) - 1)%Q.
Proof.
  intros data N T Hwf.
  do 3 eexists. split; [exact (sz_history_of_well_formed data N T Hwf)|].
  split; [exact (track_well_formed data N T Hwf)|].
  intros p Hp. exact (tracked_positions_bounds data N T p Hp).
Qed.

Lemma tracked_positions_on_chain_witness :
  exists sz_history positions times,
    Kinematics.sz_history_of (Kinematics.S_history Kinematics.two_site_run)
    = Ok sz_history /\
    Kinematics.track sz_history 0 (Kinematics.time_points Kinematics.two_site_run)
    = Ok (positions, times) /\
    forall p, In p positions -> (0 <= p /\ p <= inject_Z (Z.of_nat 2) - 1)%Q.
Proof.
  apply (tracked_positions_on_chain Kinematics.two_site_run 2 3).
  split; [lia|]. split; [reflexivity|]. split; [repeat constructor | reflexivity].
Defined.

(** X22.  The times kept by the tracking loop are a selection of the
    sampled times, in their original order, one per tracked position, and
    there are at most T of them. *)
Theorem tracked_times_are_sampled_times :
  forall (data : Kinematics.npz) (N T : nat),
    Kinematics.well_formed data N T ->
    exists sz_history positions times,
      Kinematics.sz_history_of (Kinematics.S_history data) = Ok sz_history /\
      Kinematics.track sz_history 0 (Kinematics.time_points data)
      = Ok (positions, times) /\
      Configurations.selection times (Kinematics.time_points data) /\
      length positions = length times /\
      (length times <= T)%nat.
Proof.
  intros data N T Hwf.
  do 3 eexists. split; [exact (sz_history_of_well_formed data N T Hwf)|].
  split; [exact (track_well_formed data N T Hwf)|].
  destruct Hwf as (_ & _ & _ & HT).
  pose proof (tracked_times_selection data N T HT) as Hsel.
  split; [exact Hsel|]. split; [apply length_tracked|].
  apply selection_length in Hsel. lia.
Qed.

Lemma tracked_times_are_sampled_times_witness :
  exists sz_history positions times,
    Kinematics.sz_history_of (Kinematics.S_history Kinematics.two_site_run)
    = Ok sz_history /\
    Kinematics.track sz_history 0 (Kinematics.time_points Kinematics.two_site_run)
    = Ok (positions, times) /\
    Configurations.selection times (Kinematics.time_points Kinematics.two_site_run) /\
    length positions = length times /\
    (length times <= 3)%nat.
Proof.
  apply (tracked_times_are_sampled_times Kinematics.two_site_run 2 3).
  split; [lia|]. split; [reflexivity|]. split; [repeat constructor | reflexivity].
Defined.

Section ReversedBlock.

Import Kinematics.
Local Open Scope nat_scope.

Lemma filter_none {A : Type} (f : A -> bool) (l : list A) :
  (forall x, In x l -> f x = false) -> filter f l = [].
Proof.
  induction l as [|x l IH]; intros H; [reflexivity|].
  cbn [filter]. rewrite (H x (or_introl eq_refl)). apply IH.
  intros y Hy. apply H. now right.
Qed.

Lemma filter_all {A : Type} (f : A -> bool) (l : list A) :
  (forall x, In x l -> f x = true) -> filter f l = l.
Proof.
  induction l as [|x l IH]; intros H; [reflexivity|].
  cbn [filter]. rewrite (H x (or_introl eq_refl)). f_equal. apply IH.
  intros y Hy. apply H. now right.
Qed.

Lemma filter_seq_block (f : nat -> bool) (n a w : nat) :
  a + w <= n ->
  (forall i, i < n -> (f i = true <-> a <= i < a + w)) ->
  filter f (seq 0 n) = seq a w.
Proof.
  intros Hle Hf.
  replace n with (a + (w + (n - (a + w)))) by lia.
  rewrite !seq_app, !filter_app. cbn [Nat.add].
  rewrite (filter_none f (seq 0 a)), (filter_all f (seq a w)), (filter_none f (seq (a + w) _)).
  - now rewrite app_nil_r.
  - intros i Hi. apply in_seq in Hi. apply not_true_is_false. rewrite Hf by lia. lia.
  - intros i Hi. apply in_seq in Hi. apply Hf; lia.
  - intros i Hi. apply in_seq in Hi. apply not_true_is_false. rewrite Hf by lia. lia.
Qed.

Lemma list_sum_seq (a w : nat) : 2 * list_sum (seq a w) + w = w * (2 * a + w).
Proof.
  revert a. induction w as [|w IH]; intros a; [reflexivity|].
  cbn [seq]. change (list_sum (a :: seq (S a) w)) with (a + list_sum (seq (S a) w)).
  specialize (IH (S a)). nia.
Qed.

Lemma np_mean_block (a w : nat) :
  1 <= w ->
  (np_mean (seq a w)
   == inject_Z (Z.of_nat a) + (inject_Z (Z.of_nat w) - 1) / 2)%Q.
Proof.
  intros Hw. unfold np_mean. rewrite length_seq.
  pose proof (list_sum_seq a w) as Hsum.
  assert (HZ : (2 * Z.of_nat (list_sum (seq a w)) + Z.of_nat w
                = Z.of_nat w * (2 * Z.of_nat a + Z.of_nat w))%Z) by lia.
  apply (f_equal inject_Z) in HZ.
  rewrite !inject_Z_plus, !inject_Z_mult, !inject_Z_plus, !inject_Z_mult in HZ.
  set (s := inject_Z (Z.of_nat (list_sum (seq a w)))) in *.
  set (W := inject_Z (Z.of_nat w)) in *.
  set (A := inject_Z (Z.of_nat a)) in *.
  assert (HW : ~ (W == 0)%Q).
  { unfold W. intros E. unfold Qeq in E. simpl in E. lia. }
  assert (Hs : (s == W * (A + (W - 1) / 2))%Q).
  { assert (E1 : (s == ((inject_Z 2 * s + W) - W) / 2)%Q) by (change (inject_Z 2) with 2%Q; field).
    rewrite E1, HZ. change (inject_Z 2) with 2%Q. field. }
  rewrite Hs. field. exact HW.
Qed.

End ReversedBlock.

(** X23.  When the sites with negative z component at a sampled time are
    exactly one block of [w >= 1] consecutive sites starting at site [a],
    the core indices found are a, a+1, ..., a+w-1 and the position
    recorded for that time is the middle of the block, a + (w - 1) / 2. *)
Theorem position_of_reversed_block :
  forall (row : list Q) (a w : nat),
    (1 <= w)%nat ->
    (a + w <= length row)%nat ->
    (forall i, (i < length row)%nat ->
       (Kinematics.Qlt_bool (nth i row 0%Q) 0 = true <-> (a <= i < a + w)%nat)) ->
    Kinematics.where_negative 0 row = seq a w /\
    (Kinematics.np_mean (Kinematics.where_negative 0 row)
     == inject_Z (Z.of_nat a) + (inject_Z (Z.of_nat w) - 1) / 2)%Q.
Proof.
  intros row a w Hw Hle Hblock.
  assert (Hcore : Kinematics.where_negative 0 row = seq a w).
  { rewrite where_negative_filter.
    apply filter_seq_block; [exact Hle|].
    intros i Hi. rewrite Nat.sub_0_r. now apply Hblock. }
  split; [exact Hcore|]. rewrite Hcore. now apply np_mean_block.
Qed.

Lemma position_of_reversed_block_witness :
  Kinematics.where_negative 0 [1; -1; -1; -1; 1]%Q = seq 1 3 /\
  (Kinematics.np_mean (Kinematics.where_negative 0 [1; -1; -1; -1; 1]%Q)
   == inject_Z (Z.of_nat 1) + (inject_Z (Z.of_nat 3) - 1) / 2)%Q.
Proof.
  apply (position_of_reversed_block [1; -1; -1; -1; 1]%Q 1 3).
  - lia.
  - simpl. lia.
  - intros i Hi. simpl in Hi.
    destruct i as [|[|[|[|[|i]]]]]; try lia; vm_compute; split; try discriminate;
      intros; try lia; reflexivity.
Defined.

(** ** Velocity extraction: malformed runs and what can be raised *)

Section VelocityErrors.

Import Kinematics.
Local Open Scope nat_scope.

Lemma track_index_error (row : nat -> list Q) (T : nat) (times : list Q) (k : nat) :
  0 < length times -> T < k + length times ->
  track (map row (seq 0 T)) k times = Raise IndexError.
Proof.
  revert k. induction times as [|t0 times IH]; intros k Hpos Hk.
  - cbn [length] in Hpos. lia.
  - cbn [length] in Hk. cbn [track].
    destruct (Nat.lt_ge_cases k T) as [Hlt|Hge].
    + rewrite (index_lt _ _ []) by (rewrite length_map, length_seq; exact Hlt).
      cbn [bind]. rewrite (IH (S k)) by lia. reflexivity.
    + unfold index.
      assert (Hnone : nth_error (map row (seq 0 T)) k = None)
        by (apply nth_error_None; rewrite length_map, length_seq; exact Hge).
      rewrite Hnone. reflexivity.
Qed.

Lemma sz_history_of_shape (rows : list (list Q)) (N T : nat) :
  1 <= N -> length rows = 3 * N -> Forall (fun row => length row = T) rows ->
  exists row, sz_history_of rows = Ok (map row (seq 0 T)).
Proof.
  intros HN Hrows Hcols.
  assert (Hwf : well_formed (mkNpz rows (repeat 0%Q T)) N T).
  { split; [exact HN|]. split; [exact Hrows|]. split; [exact Hcols|].
    cbn [time_points]. apply repeat_length. }
  pose proof (sz_history_of_well_formed _ N T Hwf) as H. cbn [S_history] in H.
  eexists. exact H.
Qed.

Variable curve_fit : (Q -> Q -> Q -> Q) -> list Q -> list Q -> result (pyfloat * pyfloat).

Lemma soliton_velocity_benign (data : npz) (N T : nat) :
  well_formed data N T ->
  (forall xs ys e, curve_fit linear_func xs ys = Raise e -> e = RuntimeError) ->
  exists v, soliton_velocity curve_fit data = Ok v.
Proof.
  intros Hwf Hfit.
  rewrite (soliton_velocity_well_formed curve_fit data N T Hwf).
  destruct (tracked_times data N T) as [|t times]; [now exists NaN|].
  cbv zeta.
  destruct (Nat.ltb _ 2); [now exists NaN|].
  destruct (curve_fit linear_func _ _) as [params|e] eqn:Hc.
  - now exists (fst params).
  - rewrite (Hfit _ _ _ Hc). now exists NaN.
Qed.

End VelocityErrors.

(** X24.  A saved run with more sample times than columns of [S_history]
    makes the tracking loop index past the last row of [sz_history]: the
    velocity extraction raises IndexError, whatever the spins are. *)
Theorem too_many_sample_times :
  forall (curve_fit : (Q -> Q -> Q -> Q) -> list Q -> list Q
                      -> result (Kinematics.pyfloat * Kinematics.pyfloat))
         (data : Kinematics.npz) (N T : nat),
    (1 <= N)%nat ->
    length (Kinematics.S_history data) = (3 * N)%nat ->
    Forall (fun row => length row = T) (Kinematics.S_history data) ->
    (T < length (Kinematics.time_points data))%nat ->
    Kinematics.soliton_velocity curve_fit data = Raise IndexError.
Proof.
  intros curve_fit data N T HN Hrows Hcols Hmany.
  destruct (sz_history_of_shape _ N T HN Hrows Hcols) as (row & Hsz).
  unfold Kinematics.soliton_velocity. rewrite Hsz. cbn [bind].
  rewrite track_index_error by lia. reflexivity.
Qed.

Lemma too_many_sample_times_witness :
  Kinematics.soliton_velocity Kinematics.line_through_first_two
    (Kinematics.mkNpz (Kinematics.S_history Kinematics.single_sample_run) [60; 61]%Q)
  = Raise IndexError.
Proof.
  apply (too_many_sample_times _ _ 1 1).
  - lia.
  - reflexivity.
  - repeat constructor.
  - simpl. lia.
Defined.

(** X25.  [calculate_velocity] absorbs the expected failures: when the file
    is missing, or holds a well-formed run, and the fitter fails only with
    RuntimeError, the call returns a value (a number or NaN) and raises
    nothing. *)
Theorem calculate_velocity_returns :
  forall (Filename : Type) (np_load : Filename -> result Kinematics.npz)
         (curve_fit : (Q -> Q -> Q -> Q) -> list Q -> list Q
                      -> result (Kinematics.pyfloat * Kinematics.pyfloat))
         (filename : Filename),
    (forall xs ys e, curve_fit Kinematics.linear_func xs ys = Raise e -> e = RuntimeError) ->
    (np_load filename = Raise FileNotFoundError \/
     exists data N T, np_load filename = Ok data /\ Kinematics.well_formed data N T) ->
    exists v, Kinematics.calculate_velocity Filename np_load curve_fit filename = Ok v.
Proof.
  intros Filename np_load curve_fit filename Hfit [Hmissing|(data & N & T & Hload & Hwf)];
    unfold Kinematics.calculate_velocity.
  - rewrite Hmissing. now exists Kinematics.NaN.
  - rewrite Hload. exact (soliton_velocity_benign curve_fit data N T Hwf Hfit).
Qed.

Lemma calculate_velocity_returns_witness :
  exists v,
    Kinematics.calculate_velocity unit (fun _ => Ok Kinematics.two_site_run)
      (fun _ _ _ => Raise RuntimeError) tt = Ok v.
Proof.
  apply calculate_velocity_returns.
  - intros xs ys e E. injection E as <-. reflexivity.
  - right. exists Kinematics.two_site_run, 2%nat, 3%nat.
    split; [reflexivity|].
    split; [lia|]. split; [reflexivity|]. split; [repeat constructor | reflexivity].
Defined.

(** ** The mobility loop *)

Section MobilityLoop.

Import Kinematics MobilityAnalysis Configurations.
Local Open Scope nat_scope.

Variable Filename : Type.
Variable np_load : Filename -> result npz.
Variable curve_fit : (Q -> Q -> Q -> Q) -> list Q -> list Q -> result (pyfloat * pyfloat).
Variable filename_of : Q -> Q -> Filename.

Lemma velocities_for_returns (alpha : Q) (H_DC_values : list Q) :
  (forall filename, exists v, calculate_velocity Filename np_load curve_fit filename = Ok v) ->
  exists vs hs,
    velocities_for Filename np_load curve_fit filename_of alpha H_DC_values = Ok (vs, hs) /\
    length vs = length hs /\ selection hs H_DC_values.
Proof.
  intros Hv. induction H_DC_values as [|h rest IH].
  - exists [], []. repeat split; constructor.
  - destruct IH as (vs & hs & Hrest & Hlen & Hsel).
    destruct (Hv (filename_of alpha h)) as (v & Hvh).
    cbn [velocities_for]. rewrite Hvh, Hrest. cbn [bind fst snd].
    destruct v as [q|].
    + exists (q :: vs), (h :: hs). repeat split; [simpl; lia | now constructor].
    + exists vs, hs. repeat split; [exact Hlen | now constructor].
Qed.

Lemma velocities_for_all_missing (alpha : Q) (H_DC_values : list Q) :
  (forall filename, np_load filename = Raise FileNotFoundError) ->
  velocities_for Filename np_load curve_fit filename_of alpha H_DC_values = Ok ([], []).
Proof.
  intros Hmissing. induction H_DC_values as [|h rest IH]; [reflexivity|].
  cbn [velocities_for]. unfold calculate_velocity. rewrite Hmissing. cbn [bind].
  rewrite IH. reflexivity.
Qed.

End MobilityLoop.

(** X26.  The mobility loop tolerates missing and failed points: when every
    file is missing or holds a well-formed run and the fitter fails only
    with RuntimeError, [mobility_scan] returns; [alpha_plot] and [mu_plot]
    have the same length, and [alpha_plot] is a selection of
    [alpha_values] in their order. *)
Theorem mobility_scan_returns_aligned :
  forall (Filename : Type) (np_load : Filename -> result Kinematics.npz)
         (curve_fit : (Q -> Q -> Q -> Q) -> list Q -> list Q
                      -> result (Kinematics.pyfloat * Kinematics.pyfloat))
         (filename_of : Q -> Q -> Filename) (alpha_values H_DC_values : list Q),
    (forall xs ys e, curve_fit Kinematics.linear_func xs ys = Raise e -> e = RuntimeError) ->
    (forall filename,
       np_load filename = Raise FileNotFoundError \/
       exists data N T, np_load filename = Ok data /\ Kinematics.well_formed data N T) ->
    exists alpha_plot mu_plot,
      MobilityAnalysis.mobility_scan Filename np_load curve_fit filename_of
        alpha_values H_DC_values = Ok (alpha_plot, mu_plot) /\
      length alpha_plot = length mu_plot /\
      Configurations.selection alpha_plot alpha_values.
Proof.
  intros Filename np_load curve_fit filename_of alpha_values H_DC_values Hfit Hload.
  assert (Hv : forall filename, exists v,
             Kinematics.calculate_velocity Filename np_load curve_fit filename = Ok v).
  { intros filename. unfold Kinematics.calculate_velocity.
    destruct (Hload filename) as [Hm|(data & N & T & Hl & Hwf)].
    - rewrite Hm. now exists Kinematics.NaN.
    - rewrite Hl. exact (soliton_velocity_benign curve_fit data N T Hwf Hfit). }
  induction alpha_values as [|alpha rest IH].
  - exists [], []. repeat split; constructor.
  - destruct IH as (ap & mp & Hrest & Hlen & Hsel).
    destruct (velocities_for_returns Filename np_load curve_fit filename_of
                alpha H_DC_values Hv) as (vs & hs & Hvs & _ & _).
    cbn [MobilityAnalysis.mobility_scan]. unfold MobilityAnalysis.mobility_for.
    rewrite Hvs. cbn [bind fst snd].
    destruct (Nat.ltb (length hs) 2).
    + cbn [bind]. rewrite Hrest. cbn [bind].
      exists ap, mp. repeat split; [exact Hlen | now constructor].
    + destruct (curve_fit Kinematics.linear_func hs vs) as [[mu b]|e] eqn:Hc.
      * cbn [bind fst]. rewrite Hrest. cbn [bind fst snd].
        exists (alpha :: ap), (mu :: mp). repeat split; [simpl; lia | now constructor].
      * rewrite (Hfit _ _ _ Hc). cbn [bind]. rewrite Hrest. cbn [bind].
        exists ap, mp. repeat split; [exact Hlen | now constructor].
Qed.

Lemma mobility_scan_returns_aligned_witness :
  exists alpha_plot mu_plot,
    MobilityAnalysis.mobility_scan unit (fun _ => Ok Kinematics.two_site_run)
      (fun _ _ _ => Raise RuntimeError) (fun _ _ => tt)
      [1 # 100; 2 # 100]%Q [-2 # 100; 0; 2 # 100]%Q = Ok (alpha_plot, mu_plot) /\
    length alpha_plot = length mu_plot /\
    Configurations.selection alpha_plot [1 # 100; 2 # 100]%Q.
Proof.
  apply mobility_scan_returns_aligned.
  - intros xs ys e E. injection E as <-. reflexivity.
  - intros filename. right. exists Kinematics.two_site_run, 2%nat, 3%nat.
    split; [reflexivity|].
    split; [lia|]. split; [reflexivity|]. split; [repeat constructor | reflexivity].
Defined.

(** X27.  With no data file at all the mobility loop produces empty plot
    arrays and raises nothing; the fitter is never consulted. *)
Theorem mobility_scan_without_data :
  forall (Filename : Type) (np_load : Filename -> result Kinematics.npz)
         (curve_fit : (Q -> Q -> Q -> Q) -> list Q -> list Q
                      -> result (Kinematics.pyfloat * Kinematics.pyfloat))
         (filename_of : Q -> Q -> Filename) (alpha_values H_DC_values : list Q),
    (forall filename, np_load filename = Raise FileNotFoundError) ->
    MobilityAnalysis.mobility_scan Filename np_load curve_fit filename_of
      alpha_values H_DC_values = Ok ([], []).
Proof.
  intros Filename np_load curve_fit filename_of alpha_values H_DC_values Hmissing.
  induction alpha_values as [|alpha rest IH]; [reflexivity|].
  cbn [MobilityAnalysis.mobility_scan]. unfold MobilityAnalysis.mobility_for.
  rewrite (velocities_for_all_missing Filename np_load curve_fit filename_of
             alpha H_DC_values Hmissing).
  cbn [bind fst snd length Nat.ltb Nat.leb]. rewrite IH. reflexivity.
Qed.

Lemma mobility_scan_without_data_witness :
  MobilityAnalysis.mobility_scan unit (fun _ => Raise FileNotFoundError)
    Kinematics.line_through_first_two (fun _ _ => tt)
    [1 # 100; 2 # 100]%Q [-2 # 100; 0; 2 # 100]%Q = Ok ([], []).
Proof.
  apply mobility_scan_without_data. reflexivity.
Defined.

(** ** The phase classifier *)

Section PhaseFacts.

Import LlgEngine PhaseDiagram.
Local Open Scope R_scope.

Lemma total_app (l l' : list R) : total (l ++ l') = total l + total l'.
Proof.
  unfold total. induction l as [|x l IH]; simpl; [lra|]. rewrite IH. lra.
Qed.

Lemma total_repeat (z : R) (n : nat) : total (repeat z n) = INR n * z.
Proof.
  induction n as [|n IH]; [cbn; lra|].
  rewrite S_INR. unfold total in *. cbn [repeat fold_right]. rewrite IH. lra.
Qed.

Lemma np_mean_nonempty (xs : list R) :
  xs <> [] -> np_mean xs = Some (total xs / INR (length xs)).
Proof. destruct xs; [contradiction | reflexivity]. Qed.

Lemma np_mean_repeat (z : R) (n : nat) :
  (1 <= n)%nat -> np_mean (repeat z n) = Some z.
Proof.
  intros Hn. rewrite np_mean_nonempty by (destruct n; [lia | discriminate]).
  rewrite total_repeat, repeat_length. f_equal. field.
  apply not_0_INR. lia.
Qed.

Lemma np_std_repeat (z : R) (n : nat) :
  (1 <= n)%nat -> np_std (repeat z n) = Some 0.
Proof.
  intros Hn. unfold np_std. rewrite np_mean_repeat by exact Hn.
  rewrite map_repeat, np_mean_repeat by exact Hn. cbn [option_map]. f_equal.
  replace ((z - z) * (z - z)) with 0 by ring. apply sqrt_0.
Qed.

Lemma constant_list (xs : list R) (z : R) :
  Forall (fun x => x = z) xs -> xs = repeat z (length xs).
Proof.
  induction 1 as [|x xs Hx _ IH]; [reflexivity|].
  cbn [length repeat]. now rewrite Hx, <- IH.
Qed.

Lemma total_roll (k : Z) (xs : list R) : total (roll k xs) = total xs.
Proof.
  destruct xs as [|x xs]; [reflexivity|].
  rewrite roll_nonempty by (simpl; lia).
  rewrite total_app, Rplus_comm, <- total_app, firstn_skipn. reflexivity.
Qed.

Lemma roll_nil_iff {A : Type} (k : Z) (l : list A) : roll k l = [] <-> l = [].
Proof.
  split; intros H.
  - apply length_zero_iff_nil. rewrite <- (length_roll k l), H. reflexivity.
  - subst. reflexivity.
Qed.

Lemma np_mean_roll (k : Z) (xs : list R) : np_mean (roll k xs) = np_mean xs.
Proof.
  destruct xs as [|x xs]; [reflexivity|].
  rewrite !np_mean_nonempty; [|discriminate|].
  - now rewrite total_roll, length_roll.
  - intros E. apply roll_nil_iff in E. discriminate.
Qed.

Lemma np_std_roll (k : Z) (xs : list R) : np_std (roll k xs) = np_std xs.
Proof.
  unfold np_std. rewrite np_mean_roll.
  destruct (np_mean xs) as [m|]; [|reflexivity].
  now rewrite <- roll_map, np_mean_roll.
Qed.

Lemma total_bounded (xs : list R) (b : R) :
  Forall (fun x => x <= b) xs -> total xs <= INR (length xs) * b.
Proof.
  induction 1 as [|x xs Hx _ IH]; [cbn; lra|].
  change (length (x :: xs)) with (S (length xs)). rewrite S_INR.
  unfold total in *. cbn [fold_right]. lra.
Qed.

End PhaseFacts.

(** X28.  In exact arithmetic (mean and standard deviation computed
    without rounding) a configuration whose z components are all equal is
    never classified as helicoidal: with common value z0 the mean is z0 and
    the standard deviation 0, so [analyze_phase] answers "FM" when
    z0 > 0.95 and "SL" otherwise (a planar helix, z0 = 0, is labelled
    "SL").  (On doubles the rounded mean of equal values at the threshold
    can lie on the other side of it.) *)
Theorem analyze_phase_constant_sz :
  forall (S : LlgEngine.chain) (z0 : R),
    S <> [] ->
    Forall (fun s => LlgEngine.vz s = z0) S ->
    PhaseDiagram.analyze_phase S
    = (if Rlt_dec (95 / 100) z0 then PhaseDiagram.FM else PhaseDiagram.SL).
Proof.
  intros S z0 HS Hconst.
  assert (Hn : (1 <= length S)%nat) by (destruct S; [contradiction | simpl; lia]).
  assert (Hz : map LlgEngine.vz S = repeat z0 (length S)).
  { rewrite <- (length_map LlgEngine.vz S). apply constant_list.
    apply Forall_map. exact Hconst. }
  unfold PhaseDiagram.analyze_phase. cbv zeta. rewrite Hz.
  rewrite np_mean_repeat, np_std_repeat by exact Hn.
  cbn [PhaseDiagram.float_gt PhaseDiagram.float_lt].
  destruct (Rlt_dec (95 / 100) z0); [reflexivity|].
  destruct (Rlt_dec 0 (6 / 10)) as [_|Hn6]; [reflexivity | exfalso; apply Hn6; lra].
Qed.

Lemma analyze_phase_constant_sz_witness :
  PhaseDiagram.analyze_phase [LlgEngine.mkV3 1 0 0; LlgEngine.mkV3 0 1 0]
  = (if Rlt_dec (95 / 100) 0 then PhaseDiagram.FM else PhaseDiagram.SL).
Proof.
  apply analyze_phase_constant_sz.
  - discriminate.
  - repeat constructor.
Defined.

(** X29.  In exact arithmetic (mean and standard deviation computed
    without rounding) the classification does not depend on where the
    chain is cut: [analyze_phase] gives the same label on every cyclic
    relabelling ([np.roll]) of the configuration.  (On doubles the order
    of summation changes the rounded mean, which can cross a
    threshold.) *)
Theorem analyze_phase_roll_invariant :
  forall (S : LlgEngine.chain) (k : Z),
    PhaseDiagram.analyze_phase (roll k S) = PhaseDiagram.analyze_phase S.
Proof.
  intros S k. unfold PhaseDiagram.analyze_phase. cbv zeta.
  now rewrite <- roll_map, np_mean_roll, np_std_roll.
Qed.

(** X30.  In exact arithmetic (the mean computed without rounding) "FM"
    needs a spin above the threshold: a configuration whose z components
    are all at most 0.95 (the empty one included) is never classified as
    ferromagnetic.  (On doubles the rounded mean of values at the
    threshold can exceed it.) *)
Theorem analyze_phase_not_fm :
  forall (S : LlgEngine.chain),
    Forall (fun s => (LlgEngine.vz s <= 95 / 100)%R) S ->
    PhaseDiagram.analyze_phase S <> PhaseDiagram.FM.
Proof.
  intros S Hall.
  assert (Hgt : PhaseDiagram.float_gt (PhaseDiagram.np_mean (map LlgEngine.vz S)) (95 / 100)
                = false).
  { destruct S as [|s S]; [reflexivity|].
    rewrite np_mean_nonempty by discriminate.
    cbn [PhaseDiagram.float_gt].
    destruct (Rlt_dec _ _) as [Hlt|_]; [exfalso | reflexivity].
    assert (Hb := total_bounded (map LlgEngine.vz (s :: S)) (95 / 100)).
    rewrite Forall_map in Hb. specialize (Hb Hall).
    set (n := INR (length (map LlgEngine.vz (s :: S)))) in *.
    assert (Hn : (0 < n)%R) by (unfold n; apply lt_0_INR; simpl; lia).
    set (tot := PhaseDiagram.total (map LlgEngine.vz (s :: S))) in *.
    assert (E : tot = (tot / n * n)%R) by (field; lra).
    nra. }
  unfold PhaseDiagram.analyze_phase. cbv zeta. rewrite Hgt.
  destruct (PhaseDiagram.float_lt _ _); discriminate.
Qed.

Lemma analyze_phase_not_fm_witness :
  PhaseDiagram.analyze_phase [LlgEngine.mkV3 1 0 0; LlgEngine.mkV3 0 0 (1 / 2)]
  <> PhaseDiagram.FM.
Proof.
  apply analyze_phase_not_fm.
  repeat constructor; cbn [LlgEngine.vz]; lra.
Defined.
